(** * WProxy: a forward HTTP/HTTPS proxy

    A shallow embedding of the request handler of [main.go] and of the
    Go library functions it calls, with the properties of its
    authentication gate, its CONNECT tunnel and its plain HTTP forwarder.

    [main.go] comes in two variants, without and with the flag
    [-a user:password]; their [handleTunneling], [transfer], [handleHTTP]
    and [copyHeader] are the same.  The variant with the flag is embedded
    here; the other one is its handler with an empty credential. *)

From Stdlib Require Import NArith ZArith Lia Ascii String List.
From stdpp Require Import base gmap strings list fin_maps.

Local Open Scope string_scope.
Local Open Scope N_scope.

(** * Go strings

    A Go [string] is a sequence of bytes: [String.string], whose
    characters are 8-bit [ascii]. *)

Module GoStrings.

(** [strings.HasPrefix(s, sep)] *)
Fixpoint HasPrefix (s sep : string) {struct sep} : bool :=
  match sep, s with
  | EmptyString, _ => true
  | String c sep', String d s' => if Ascii.eqb c d then HasPrefix s' sep' else false
  | String _ _, EmptyString => false
  end.

(** [s[n:]] for [n <= len(s)] *)
Fixpoint drop (n : nat) (s : string) {struct n} : string :=
  match n, s with
  | O, _ => s
  | S n', String _ s' => drop n' s'
  | S _, EmptyString => EmptyString
  end.

(** [strings.Cut(s, sep)]: the text before and after the first
    occurrence of [sep], [None] when [sep] does not occur. *)
Fixpoint Cut (s sep : string) : option (string * string) :=
  if HasPrefix s sep then Some (EmptyString, drop (String.length sep) s)
  else match s with
       | EmptyString => None
       | String c s' =>
           match Cut s' sep with
           | Some (before, after) => Some (String c before, after)
           | None => None
           end
       end.

(** [strings.SplitN(s, sep, n)] for a non-empty [sep] and [n >= 0]:
    at most [n] pieces, the last one the unsplit remainder. *)
Fixpoint SplitN (s sep : string) (n : nat) : list string :=
  match n with
  | O => []
  | S O => [s]
  | S n' =>
      match Cut s sep with
      | None => [s]
      | Some (before, after) => before :: SplitN after sep n'
      end
  end.

(** [strings.Join(elems, sep)] *)
Fixpoint Join (elems : list string) (sep : string) : string :=
  match elems with
  | [] => EmptyString
  | [e] => e
  | e :: rest => e ++ sep ++ Join rest sep
  end.

End GoStrings.

(** * encoding/base64, [StdEncoding]

    The standard alphabet with [=] padding.  [DecodeString] is the
    non-strict decoder of the Go library: carriage returns and line feeds
    are skipped, padding is mandatory, anything after the padding is an
    error and the unused low bits of the last sextet are not checked. *)

Module Base64.

Definition encodeStd : string :=
  "ABCDEFGHIJKLMNOPQRSTUVWXYZabcdefghijklmnopqrstuvwxyz0123456789+/".

Definition padChar : ascii := "="%char.

(** [enc.encode[v]] *)
Definition encodeChar (v : N) : ascii :=
  match String.get (N.to_nat v) encodeStd with
  | Some c => c
  | None => padChar
  end.

Fixpoint indexByte (c : ascii) (s : string) (i : N) : option N :=
  match s with
  | EmptyString => None
  | String d s' => if Ascii.eqb c d then Some i else indexByte c s' (i + 1)
  end.

(** [enc.decodeMap[c]], [None] standing for the entry [0xff] *)
Definition decodeMap (c : ascii) : option N := indexByte c encodeStd 0.

Definition byte (n : N) : ascii := ascii_of_N (n mod 256).

(** [EncodeToString]: three source bytes give four sextets; a last
    group of one or two bytes is padded to four characters. *)
Fixpoint EncodeToString (src : string) : string :=
  match src with
  | EmptyString => EmptyString
  | String a EmptyString =>
      let a := N_of_ascii a in
      String (encodeChar (a / 4))
        (String (encodeChar (a mod 4 * 16))
           (String padChar (String padChar EmptyString)))
  | String a (String b EmptyString) =>
      let a := N_of_ascii a in
      let b := N_of_ascii b in
      String (encodeChar (a / 4))
        (String (encodeChar (a mod 4 * 16 + b / 16))
           (String (encodeChar (b mod 16 * 4))
              (String padChar EmptyString)))
  | String a (String b (String c rest)) =>
      let a := N_of_ascii a in
      let b := N_of_ascii b in
      let c := N_of_ascii c in
      String (encodeChar (a / 4))
        (String (encodeChar (a mod 4 * 16 + b / 16))
           (String (encodeChar (b mod 16 * 4 + c / 64))
              (String (encodeChar (c mod 64)) (EncodeToString rest))))
  end.

Definition isNewline (c : ascii) : bool :=
  Ascii.eqb c "010"%char || Ascii.eqb c "013"%char.

(** The rest of the input after a complete padding: only line breaks. *)
Fixpoint onlyNewlines (s : string) : bool :=
  match s with
  | EmptyString => true
  | String c s' => isNewline c && onlyNewlines s'
  end.

(** After the first [=] of a two-byte padding: line breaks, the second
    [=], then only line breaks. *)
Fixpoint secondPad (s : string) : bool :=
  match s with
  | EmptyString => false
  | String c s' =>
      if isNewline c then secondPad s'
      else Ascii.eqb c padChar && onlyNewlines s'
  end.

(** [val := d0<<18 | d1<<12 | d2<<6 | d3] of [decodeQuantum]; the
    sextets are below 64, so the bits do not overlap. *)
Definition quantum (d0 d1 d2 d3 : N) : N :=
  d0 * 262144 + d1 * 4096 + d2 * 64 + d3.

(** [decodeQuantum], iterated by [Decode]: [dbuf] holds the sextets of
    the quantum read so far. *)
Fixpoint decode (src : string) (dbuf : list N) : option string :=
  match src with
  | EmptyString =>
      match dbuf with
      | [] => Some EmptyString
      | _ => None
      end
  | String c rest =>
      match decodeMap c with
      | Some out =>
          match dbuf with
          | [d0; d1; d2] =>
              let val := quantum d0 d1 d2 out in
              match decode rest [] with
              | Some tl =>
                  Some (String (byte (val / 65536))
                          (String (byte (val / 256)) (String (byte val) tl)))
              | None => None
              end
          | _ => decode rest (dbuf ++ [out])%list
          end
      | None =>
          if isNewline c then decode rest dbuf
          else if Ascii.eqb c padChar then
            match dbuf with
            | [d0; d1] =>
                let val := quantum d0 d1 0 0 in
                if secondPad rest
                then Some (String (byte (val / 65536)) EmptyString)
                else None
            | [d0; d1; d2] =>
                let val := quantum d0 d1 d2 0 in
                if onlyNewlines rest
                then Some (String (byte (val / 65536))
                             (String (byte (val / 256)) EmptyString))
                else None
            | _ => None
            end
          else None
      end
  end.

Definition DecodeString (s : string) : option string := decode s [].

End Base64.


(** * net/textproto and net/http headers

    [http.Header] is a [map[string][]string]; its methods canonicalise
    the key, a direct index does not. *)

Abbreviation Header := (gmap string (list string)).

Module TextProto.

Definition isLower (c : ascii) : bool :=
  (97 <=? N_of_ascii c) && (N_of_ascii c <=? 122).

Definition isUpper (c : ascii) : bool :=
  (65 <=? N_of_ascii c) && (N_of_ascii c <=? 90).

Definition isDigit (c : ascii) : bool :=
  (48 <=? N_of_ascii c) && (N_of_ascii c <=? 57).

Fixpoint containsByte (s : string) (c : ascii) : bool :=
  match s with
  | EmptyString => false
  | String d s' => Ascii.eqb c d || containsByte s' c
  end.

(** The token characters of RFC 7230. *)
Definition validHeaderFieldByte (c : ascii) : bool :=
  isDigit c || isLower c || isUpper c || containsByte "!#$%&'*+-.^_`|~" c.

Fixpoint allValid (s : string) : bool :=
  match s with
  | EmptyString => true
  | String c s' => validHeaderFieldByte c && allValid s'
  end.

Definition toLower : N := 32.

(** One byte of the rewriting loop of [canonicalMIMEHeaderKey]. *)
Definition canonicalByte (upper : bool) (c : ascii) : ascii :=
  if upper && isLower c then ascii_of_N (N_of_ascii c - toLower)
  else if negb upper && isUpper c then ascii_of_N (N_of_ascii c + toLower)
  else c.

(** The rewriting loop of [canonicalMIMEHeaderKey]: upper case for the
    first letter and after each dash, lower case elsewhere. *)
Fixpoint canonicalize (upper : bool) (a : string) : string :=
  match a with
  | EmptyString => EmptyString
  | String c a' =>
      let c := canonicalByte upper c in
      String c (canonicalize (Ascii.eqb c "-"%char) a')
  end.

(** [textproto.CanonicalMIMEHeaderKey]: a key with a byte that is not a
    token character is returned unchanged. *)
Definition CanonicalMIMEHeaderKey (s : string) : string :=
  if allValid s then canonicalize true s else s.

End TextProto.

(** [h.Get(key)]: the first value of the canonical key, [""] without one *)
Definition Header_Get (h : Header) (key : string) : string :=
  match h !! TextProto.CanonicalMIMEHeaderKey key with
  | Some (v :: _) => v
  | _ => ""
  end.

(** [h.Set(key, value)] *)
Definition Header_Set (h : Header) (key value : string) : Header :=
  <[TextProto.CanonicalMIMEHeaderKey key := [value]]> h.

(** [h.Add(key, value)] *)
Definition Header_Add (h : Header) (key value : string) : Header :=
  let key := TextProto.CanonicalMIMEHeaderKey key in
  <[key := (default [] (h !! key) ++ [value])%list]> h.

(** [h.Del(key)] *)
Definition Header_Del (h : Header) (key : string) : Header :=
  delete (TextProto.CanonicalMIMEHeaderKey key) h.

(** [h.get(key)] of the server: the first value of the key as it is
    spelled, [""] without one *)
Definition Header_get (h : Header) (key : string) : string :=
  match h !! key with
  | Some (v :: _) => v
  | _ => ""
  end.

(** * strconv *)

Module Strconv.

Fixpoint digits (s : string) (acc : Z) : option Z :=
  match s with
  | EmptyString => Some acc
  | String c s' =>
      if TextProto.isDigit c
      then digits s' (10 * acc + (Z.of_N (N_of_ascii c) - 48))%Z
      else None
  end.

(** The digits after the sign: at least one, and the value in the range
    of an [int64]. *)
Definition magnitude (neg : bool) (s : string) : option Z :=
  match s with
  | EmptyString => None
  | _ =>
      match digits s 0 with
      | Some v =>
          let v := (if neg then - v else v)%Z in
          if ((- 2 ^ 63 <=? v) && (v <=? 2 ^ 63 - 1))%Z then Some v else None
      | None => None
      end
  end.

(** [strconv.ParseInt(s, 10, 64)], [None] for its errors *)
Definition ParseInt (s : string) : option Z :=
  match s with
  | String c s' =>
      if Ascii.eqb c "+"%char then magnitude false s'
      else if Ascii.eqb c "-"%char then magnitude true s'
      else magnitude false s
  | EmptyString => None
  end.

End Strconv.

(** * net.SplitHostPort *)

Module Net.

Fixpoint IndexByte (s : string) (c : ascii) : option nat :=
  match s with
  | EmptyString => None
  | String d s' =>
      if Ascii.eqb c d then Some O
      else match IndexByte s' c with
           | Some i => Some (S i)
           | None => None
           end
  end.

Fixpoint LastIndexByte (s : string) (c : ascii) : option nat :=
  match s with
  | EmptyString => None
  | String d s' =>
      match LastIndexByte s' c with
      | Some i => Some (S i)
      | None => if Ascii.eqb c d then Some O else None
      end
  end.

(** [s[i:]] *)
Definition from (i : nat) (s : string) : string :=
  String.substring i (String.length s - i) s.

(** [net.SplitHostPort(hostport)]: [(host, port)], or [None] for the
    address errors (missing port, too many colons, misplaced brackets). *)
Definition SplitHostPort (hostport : string) : option (string * string) :=
  match LastIndexByte hostport ":"%char with
  | None => None
  | Some i =>
      let bracketed :=
        match hostport with
        | String c _ => Ascii.eqb c "["%char
        | EmptyString => false
        end in
      let parsed : option (string * nat * nat) :=
        if bracketed then
          match IndexByte hostport "]"%char with
          | None => None
          | Some end_ =>
              if Nat.eqb (end_ + 1) (String.length hostport) then None
              else if Nat.eqb (end_ + 1) i
                   then Some (String.substring 1 (end_ - 1) hostport, 1%nat, (end_ + 1)%nat)
                   else None
          end
        else
          let host := String.substring 0 i hostport in
          match IndexByte host ":"%char with
          | Some _ => None
          | None => Some (host, O, O)
          end in
      match parsed with
      | None => None
      | Some (host, j, k) =>
          match IndexByte (from j hostport) "["%char,
                IndexByte (from k hostport) "]"%char with
          | None, None => Some (host, from (i + 1) hostport)
          | _, _ => None
          end
      end
  end.

End Net.

(** * The configuration and the values a request handler sees *)

(** [type config struct] *)
Record config := {
  Addr : string;
  Port : string;
  Auth : string;
  TProxy : bool;
  Debug : bool
}.

(** A [net.Conn] interface value: [nil], or an open TCP connection. *)
Inductive Conn :=
| NilConn
| TCPConn (id : nat).

(** The fields of [*http.Request] the handlers read. *)
Record Request := {
  Method : string;
  Host : string;
  RemoteAddr : string;
  ReqHeader : Header;
  ReqBody : string
}.

(** [*http.Response] as [http.DefaultTransport.RoundTrip] returns it:
    the status code, the header map and the body after the transport's
    own processing (an answer in gzip that the transport asked for
    arrives decoded, without its Content-Encoding and Content-Length).
    [Body] is the sequence of chunks the body reader yields until it
    ends. *)
Record Response := {
  StatusCode : Z;
  RespHeader : Header;
  Body : list string
}.

Definition StatusOK : Z := 200.
Definition StatusProxyAuthRequired : Z := 407.
Definition StatusInternalServerError : Z := 500.
Definition StatusServiceUnavailable : Z := 503.
Definition MethodConnect : string := "CONNECT".

(** What [Hijack()] of the response writer returns. *)
Inductive HijackResult :=
| HijackOk (id : nat)
| HijackErr (err : string).

(** The [http.ResponseWriter] of one request.  [handlerHeader] is the map
    [w.Header()] returns; the status line and a copy of that map are
    committed by the first [WriteHeader] with a final status (or by the
    first [Write]), later calls of [WriteHeader] are ignored and later
    changes to the map are not sent.  [hijacker] is [None] when the
    writer does not implement [http.Hijacker].  [contentLength] is the
    length the committed Content-Length declares, [attempted] the number
    of bytes handed to [Write] against it, and [written] the bytes [Write]
    accepted.  [clientTakes] is the number of writes the connection of
    the client still takes before it is lost, [None] for a client that
    stays connected. *)
Record ResponseWriter := {
  hijacker : option HijackResult;
  handlerHeader : Header;
  wroteHeader : bool;
  status : Z;
  sentHeader : Header;
  interim : list Z;
  written : string;
  hijacked : bool;
  contentLength : option Z;
  attempted : Z;
  clientTakes : option nat
}.

(** The run-time panics of a handler. *)
Inductive Panic :=
| InvalidWriteHeaderCode (code : Z).

(** The effects of a handler, in program order. *)
Inductive Event :=
| EvDial (address : string)
| EvWriteHeader (code : Z)
| EvWrite (data : string)
| EvHijack
| EvGo (destination source : Conn)
| EvRoundTrip (req : Request)
| EvBodyClose
| EvPanic (p : Panic).

(** The name resolution, the destination hosts and the origin servers:
    what a dial and what a round trip return. *)
Inductive DialResult :=
| DialOk (id : nat)
| DialErr (err : string).

Record Network := {
  DialTimeout : string -> DialResult;
  RoundTrip : Request -> Response + string
}.

Record World := {
  rw : ResponseWriter;
  trace : list Event;
  logged : list string
}.

(** The writer the server hands to the handler, for a client that takes
    [takes] writes. *)
Definition newResponseFor (h : option HijackResult) (takes : option nat) :
  ResponseWriter :=
  {| hijacker := h; handlerHeader := ∅; wroteHeader := false; status := 0%Z;
     sentHeader := ∅; interim := []; written := ""; hijacked := false;
     contentLength := None; attempted := 0%Z; clientTakes := takes |}.

(** The writer for a client that stays connected. *)
Definition newResponse (h : option HijackResult) : ResponseWriter :=
  newResponseFor h None.

Definition newWorld (h : option HijackResult) : World :=
  {| rw := newResponse h; trace := []; logged := [] |}.

(** The world of a request whose client is lost after [n] writes. *)
Definition newWorldLosing (h : option HijackResult) (n : nat) : World :=
  {| rw := newResponseFor h (Some n); trace := []; logged := [] |}.

(** * A state monad over [World], with panics

    A computation returns [Some] result or panics ([None]); the world it
    leaves is the one at its return or at the panic. *)

Definition M (A : Type) : Type := World -> option A * World.

Definition ret {A} (a : A) : M A := fun w => (Some a, w).

Definition bind {A B} (m : M A) (k : A -> M B) : M B :=
  fun w => match m w with
           | (Some a, w') => k a w'
           | (None, w') => (None, w')
           end.

Declare Scope go_scope.
Delimit Scope go_scope with go.
Notation "x <- m ;; k" := (bind m (fun x => k))
  (at level 100, m at next level, right associativity) : go_scope.
Notation "m ;; k" := (bind m (fun _ => k))
  (at level 100, right associativity) : go_scope.
Local Open Scope go_scope.

Definition exec {A} (m : M A) (w : World) : World := snd (m w).

Definition emit (e : Event) : M unit :=
  fun w => (Some tt,
            {| rw := rw w; trace := (trace w ++ [e])%list; logged := logged w |}).

Definition getWriter : M ResponseWriter := fun w => (Some (rw w), w).

Definition putWriter (r : ResponseWriter) : M unit :=
  fun w => (Some tt, {| rw := r; trace := trace w; logged := logged w |}).

(** [log.Printf] of the handler *)
Definition log_Printf (line : string) : M unit :=
  fun w => (Some tt,
            {| rw := rw w; trace := trace w; logged := (logged w ++ [line])%list |}).

Definition when (b : bool) (m : M unit) : M unit := if b then m else ret tt.

(** [panic(p)]: the rest of the function is not run. *)
Definition panic {A} (p : Panic) : M A :=
  fun w => (None,
            {| rw := rw w; trace := (trace w ++ [EvPanic p])%list;
               logged := logged w |}).

(** [defer cleanup] ahead of [body]: [cleanup] runs when [body] returns
    and when it panics, and a panic goes on after it. *)
Definition deferring (cleanup body : M unit) : M unit :=
  fun w => match body w with
           | (res, w') =>
               match cleanup w' with
               | (Some _, w'') => (res, w'')
               | (None, w'') => (None, w'')
               end
           end.

Definition panicked {A} (m : M A) (w : World) : bool :=
  match fst (m w) with
  | Some _ => false
  | None => true
  end.

(** * The response writer's methods *)

(** A 1xx status other than 101 is an interim response. *)
Definition informational (code : Z) : bool :=
  ((100 <=? code) && (code <=? 199) && negb (code =? 101))%Z.

(** [checkWriteHeaderCode]: the codes [WriteHeader] does not panic on. *)
Definition checkWriteHeaderCode (code : Z) : bool :=
  ((100 <=? code) && (code <=? 999))%Z.

(** [bodyAllowedForStatus] *)
Definition bodyAllowedForStatus (status : Z) : bool :=
  (negb ((100 <=? status) && (status <=? 199)) &&
   negb (status =? 204) && negb (status =? 304))%Z.

(** The length a Content-Length value declares: a decimal number that
    is not negative. *)
Definition declaredLength (cl : string) : option Z :=
  match Strconv.ParseInt cl with
  | Some v => if (0 <=? v)%Z then Some v else None
  | None => None
  end.

(** The header map of the handler after [WriteHeader] has read its
    Content-Length: a value that declares no length is deleted. *)
Definition checkedHeader (h : Header) : Header :=
  let cl := Header_get h "Content-Length" in
  if String.eqb cl "" then h
  else match declaredLength cl with
       | Some _ => h
       | None => Header_Del h "Content-Length"
       end.

(** What [WriteHeader] does to the writer when no header was written and
    the code is valid: an interim response is sent at once and commits
    nothing; a final status is committed with a copy of the header map
    as it is then, and the Content-Length of the map is read. *)
Definition commit (code : Z) (r : ResponseWriter) : ResponseWriter :=
  if wroteHeader r then r
  else if informational code then
    {| hijacker := hijacker r; handlerHeader := handlerHeader r;
       wroteHeader := false; status := status r; sentHeader := sentHeader r;
       interim := (interim r ++ [code])%list; written := written r;
       hijacked := hijacked r; contentLength := contentLength r;
       attempted := attempted r; clientTakes := clientTakes r |}
  else
    {| hijacker := hijacker r; handlerHeader := checkedHeader (handlerHeader r);
       wroteHeader := true; status := code; sentHeader := handlerHeader r;
       interim := interim r; written := written r; hijacked := hijacked r;
       contentLength :=
         declaredLength (Header_get (handlerHeader r) "Content-Length");
       attempted := attempted r; clientTakes := clientTakes r |}.

(** [w.WriteHeader(code)]: ignored on a hijacked connection and when a
    header was written; otherwise a code outside 100..999 panics. *)
Definition WriteHeader (code : Z) : M unit :=
  emit (EvWriteHeader code) ;;
  r <- getWriter ;;
  if hijacked r then ret tt
  else if wroteHeader r then ret tt
  else if checkWriteHeaderCode code then putWriter (commit code r)
  else panic (InvalidWriteHeaderCode code).

(** [w.written += lenData] *)
Definition attempt (r : ResponseWriter) (n : Z) : ResponseWriter :=
  {| hijacker := hijacker r; handlerHeader := handlerHeader r;
     wroteHeader := wroteHeader r; status := status r;
     sentHeader := sentHeader r; interim := interim r;
     written := written r; hijacked := hijacked r;
     contentLength := contentLength r; attempted := (attempted r + n)%Z;
     clientTakes := clientTakes r |}.

Definition appendBody (r : ResponseWriter) (data : string) : ResponseWriter :=
  {| hijacker := hijacker r; handlerHeader := handlerHeader r;
     wroteHeader := wroteHeader r; status := status r;
     sentHeader := sentHeader r; interim := interim r;
     written := written r ++ data; hijacked := hijacked r;
     contentLength := contentLength r; attempted := attempted r;
     clientTakes := clientTakes r |}.

(** One write taken by the connection of the client. *)
Definition taken (r : ResponseWriter) : ResponseWriter :=
  {| hijacker := hijacker r; handlerHeader := handlerHeader r;
     wroteHeader := wroteHeader r; status := status r;
     sentHeader := sentHeader r; interim := interim r;
     written := written r; hijacked := hijacked r;
     contentLength := contentLength r; attempted := attempted r;
     clientTakes := option_map Nat.pred (clientTakes r) |}.

(** [w.written > w.contentLength] for a declared length *)
Definition overLength (r : ResponseWriter) : bool :=
  match contentLength r with
  | Some v => (v <? attempted r)%Z
  | None => false
  end.

Definition clientLost (r : ResponseWriter) : bool :=
  match clientTakes r with
  | Some O => true
  | _ => false
  end.

(** [w.Write(data)], with [true] for the error [nil]: an error on a
    hijacked connection; an implicit [WriteHeader(200)] when no header
    was written; nothing to do for no data; [ErrBodyNotAllowed] for a
    status without a body; [ErrContentLength] past the declared length;
    then the bytes, or the error of a lost connection. *)
Definition Write (data : string) : M bool :=
  emit (EvWrite data) ;;
  r <- getWriter ;;
  if hijacked r then ret false
  else
    let r := commit StatusOK r in
    if String.eqb data "" then putWriter r ;; ret true
    else if negb (bodyAllowedForStatus (status r)) then putWriter r ;; ret false
    else
      let r := attempt r (Z.of_nat (String.length data)) in
      if overLength r then putWriter r ;; ret false
      else if clientLost r then putWriter r ;; ret false
      else putWriter (appendBody (taken r) data) ;; ret true.

Definition mapHeader (f : Header -> Header) (r : ResponseWriter) :
  ResponseWriter :=
  {| hijacker := hijacker r; handlerHeader := f (handlerHeader r);
     wroteHeader := wroteHeader r; status := status r;
     sentHeader := sentHeader r; interim := interim r;
     written := written r; hijacked := hijacked r;
     contentLength := contentLength r; attempted := attempted r;
     clientTakes := clientTakes r |}.

(** A change of the map [w.Header()] returns. *)
Definition withHeader (f : Header -> Header) : M unit :=
  r <- getWriter ;;
  putWriter (mapHeader f r).

Definition newline : string := String "010"%char EmptyString.

(** [http.Error(w, error, code)]; the result of its [Fprintln] is
    dropped. *)
Definition http_Error (error : string) (code : Z) : M unit :=
  withHeader (fun h => Header_Del h "Content-Length") ;;
  withHeader (fun h => Header_Set h "Content-Type" "text/plain; charset=utf-8") ;;
  withHeader (fun h => Header_Set h "X-Content-Type-Options" "nosniff") ;;
  WriteHeader code ;;
  _ <- Write (error ++ newline) ;;
  ret tt.

(** [hijacker.Hijack()]: the connection and the error of the call. *)
Definition Hijack (h : HijackResult) : M (Conn * option string) :=
  emit EvHijack ;;
  match h with
  | HijackOk id =>
      r <- getWriter ;;
      putWriter
        {| hijacker := hijacker r; handlerHeader := handlerHeader r;
           wroteHeader := wroteHeader r; status := status r;
           sentHeader := sentHeader r; interim := interim r;
           written := written r; hijacked := true;
           contentLength := contentLength r; attempted := attempted r;
           clientTakes := clientTakes r |} ;;
      ret (TCPConn id, None)
  | HijackErr err => ret (NilConn, Some err)
  end.

(** [io.Copy(w, resp.Body)]: the bytes of each read are written, a read
    of no bytes writes nothing; the copy ends with the body and at the
    first write that fails. *)
Fixpoint io_Copy (chunks : list string) : M unit :=
  match chunks with
  | [] => ret tt
  | chunk :: rest =>
      if String.eqb chunk "" then io_Copy rest
      else
        ok <- Write chunk ;;
        if ok then io_Copy rest else ret tt
  end.

(** * main.go *)

Definition dquote : string := String "034"%char EmptyString.

(** The challenge of the 407 response. *)
Definition challenge : string :=
  "Basic realm=" ++ dquote ++ "WProxy Basic Authentication" ++ dquote.

Definition addValues (k : string) (dst : Header) (vv : list string) : Header :=
  foldl (fun d v => Header_Add d k v) dst vv.

(** [copyHeader] with the keys of [src] visited in the order of [entries]
    (the order of a [range] over a map is not specified). *)
Definition copyHeaderIn (entries : list (string * list string)) (dst : Header) : Header :=
  foldl (fun d kvv => addValues (fst kvv) d (snd kvv)) dst entries.

(** [func copyHeader(dst, src http.Header)] *)
Definition copyHeader (dst src : Header) : Header :=
  copyHeaderIn (map_to_list src) dst.

Section Proxy.

(** [var Cfg config], set once by [init] before the server starts. *)
Variable Cfg : config.
Variable network : Network.

Definition received (r : Request) : string :=
  "Received request " ++ Method r ++ " " ++ Host r ++ " " ++ RemoteAddr r ++ newline.

(** [go transfer(destination, source)]: the goroutine is started; what it
    does is the subject of [Relay] below. *)
Definition go_transfer (destination source : Conn) : M unit :=
  emit (EvGo destination source).

(** [func handleTunneling(w http.ResponseWriter, r *http.Request)] *)
Definition handleTunneling (r : Request) : M unit :=
  when (Debug Cfg) (log_Printf (received r)) ;;
  emit (EvDial (Host r)) ;;
  match DialTimeout network (Host r) with
  | DialErr err => http_Error err StatusServiceUnavailable
  | DialOk id =>
      let destConn := TCPConn id in
      WriteHeader StatusOK ;;
      w <- getWriter ;;
      match hijacker w with
      | None => http_Error "Hijacking not supported" StatusInternalServerError
      | Some h =>
          res <- Hijack h ;;
          let clientConn := fst res in
          match snd res with
          | Some err => http_Error err StatusServiceUnavailable
          | None => ret tt
          end ;;
          go_transfer destConn clientConn ;;
          go_transfer clientConn destConn
      end
  end.

Definition withReqHeader (req : Request) (h : Header) : Request :=
  {| Method := Method req; Host := Host req; RemoteAddr := RemoteAddr req;
     ReqHeader := h; ReqBody := ReqBody req |}.

(** The client-IP rewriting at the head of [handleHTTP]. *)
Definition forwardedFor (req : Request) : Request :=
  if TProxy Cfg then
    match Net.SplitHostPort (RemoteAddr req) with
    | Some (clientIP, _) =>
        let clientIP :=
          match ReqHeader req !! "X-Forwarded-For" with
          | Some v => GoStrings.Join v ", " ++ ", " ++ clientIP
          | None => clientIP
          end in
        withReqHeader req (Header_Set (ReqHeader req) "X-Forwarded-For" clientIP)
    | None => req
    end
  else req.

(** [func handleHTTP(w http.ResponseWriter, req *http.Request)] *)
Definition handleHTTP (req : Request) : M unit :=
  when (Debug Cfg) (log_Printf (received req)) ;;
  let req := forwardedFor req in
  emit (EvRoundTrip req) ;;
  match RoundTrip network req with
  | inr err => http_Error err StatusServiceUnavailable
  | inl resp =>
      deferring (emit EvBodyClose)
        (withHeader (fun h => copyHeader h (RespHeader resp)) ;;
         WriteHeader (StatusCode resp) ;;
         io_Copy (Body resp))
  end.

(** [func checkAuth(auth string) bool] *)
Definition checkAuth (auth : string) : bool :=
  match GoStrings.SplitN auth " " 2 with
  | [c0; c1] =>
      if negb (String.eqb c0 "Basic") then false
      else match Base64.DecodeString c1 with
           | None => false
           | Some payload => String.eqb payload (Auth Cfg)
           end
  | _ => false
  end.

(** The [Handler] of the server in [main]. *)
Definition Handler (r : Request) : M unit :=
  let serve :=
    if String.eqb (Method r) MethodConnect then handleTunneling r
    else handleHTTP r in
  if negb (String.eqb (Auth Cfg) "") then
    let auth := Header_Get (ReqHeader r) "Proxy-Authorization" in
    if String.eqb auth "" || negb (checkAuth auth) then
      withHeader (fun h => Header_Set h "Proxy-Authenticate" challenge) ;;
      http_Error "Authorization required" StatusProxyAuthRequired
    else serve
  else serve.

End Proxy.

(** * The relay goroutines

    [handleTunneling] starts [transfer] twice and returns; the two
    goroutines then run interleaved in any order.  A schedule lists which
    goroutine takes its next step and, when that step is an iteration of
    [io.Copy], how its read ends. *)

Module Relay.

(** A TCP connection: [Close] on an open connection releases its
    descriptor; on a closed one it only returns an error. *)
Record Descriptor := {
  isOpen : bool;
  released : nat;
  closeCalls : nat
}.

Definition opened : Descriptor :=
  {| isOpen := true; released := 0; closeCalls := 0 |}.

Inductive Phase :=
| Copying
| ClosingSource
| ClosingDestination
| Finished.

(** One running [transfer(destination, source)]. *)
Record Task := {
  destination : Conn;
  source : Conn;
  phase : Phase;
  copied : nat
}.

Record State := {
  descriptors : gmap nat Descriptor;
  goroutines : list Task;
  crashed : bool
}.

(** How a read of the source ends. *)
Inductive Outcome :=
| Chunk
| EOF
| IOError.

Definition Schedule := list (nat * Outcome).

Definition connIds (c : Conn) : list nat :=
  match c with
  | NilConn => []
  | TCPConn id => [id]
  end.

(** [func transfer(destination io.WriteCloser, source io.ReadCloser)]
    when the goroutine is created: it has run nothing yet.  Its first
    step, in [step] below, runs the two [defer] statements and then the
    first iteration of [io.Copy]. *)
Definition transfer (destination source : Conn) : Task :=
  {| destination := destination; source := source; phase := Copying; copied := 0 |}.

(** The goroutines a handler has started, from its trace. *)
Fixpoint spawned (tr : list Event) : list Task :=
  match tr with
  | [] => []
  | EvGo dst src :: tr' => transfer dst src :: spawned tr'
  | _ :: tr' => spawned tr'
  end.

Definition start (tr : list Event) : State :=
  let ts := spawned tr in
  {| descriptors :=
       list_to_map
         (map (fun id => (id, opened))
            (concat (map (fun t => connIds (destination t) ++ connIds (source t))%list ts)));
     goroutines := ts;
     crashed := false |}.

Definition closeDescriptor (d : Descriptor) : Descriptor :=
  {| isOpen := false;
     released := if isOpen d then S (released d) else released d;
     closeCalls := S (closeCalls d) |}.

(** A method call on a nil interface value panics, as does the [defer]
    of one, and a panic in a goroutine ends the process. *)
Definition crash (s : State) : State :=
  {| descriptors := descriptors s; goroutines := goroutines s; crashed := true |}.

(** [c.Close()] *)
Definition Close (c : Conn) (s : State) : State :=
  match c with
  | NilConn => crash s
  | TCPConn id =>
      {| descriptors := alter closeDescriptor id (descriptors s);
         goroutines := goroutines s;
         crashed := crashed s |}
  end.

(** Whether a read or a write on [c] can succeed: [c] is open. *)
Definition usable (m : gmap nat Descriptor) (c : Conn) : bool :=
  match c with
  | NilConn => false
  | TCPConn id =>
      match m !! id with
      | Some d => isOpen d
      | None => false
      end
  end.

Definition setTask (i : nat) (t : Task) (s : State) : State :=
  {| descriptors := descriptors s;
     goroutines := <[i := t]> (goroutines s);
     crashed := crashed s |}.

Definition withPhase (t : Task) (p : Phase) : Task :=
  {| destination := destination t; source := source t; phase := p;
     copied := copied t |}.

Definition moved (t : Task) : Task :=
  {| destination := destination t; source := source t; phase := phase t;
     copied := S (copied t) |}.

(** One iteration of the loop of [io.Copy(destination, source)]: a read
    that yields data is followed by a write; the loop ends at the end of
    the source and at the first error, and every read or write on a
    closed connection is an error. *)
Definition copyStep (i : nat) (t : Task) (o : Outcome) (s : State) : State :=
  match source t with
  | NilConn => crash s
  | TCPConn _ =>
      match o with
      | Chunk =>
          if usable (descriptors s) (source t) then
            match destination t with
            | NilConn => crash s
            | TCPConn _ =>
                if usable (descriptors s) (destination t) then setTask i (moved t) s
                else setTask i (withPhase t ClosingSource) s
            end
          else setTask i (withPhase t ClosingSource) s
      | EOF | IOError => setTask i (withPhase t ClosingSource) s
      end
  end.

(** The two [defer] statements at the head of [transfer].  A [defer] of
    a method call evaluates the receiver: on a nil interface value the
    statement itself panics, and the call deferred before it is run as
    the panic unwinds.  With two connections the statements only
    register the calls that the phases [ClosingSource] and
    [ClosingDestination] run. *)
Definition deferCloses (t : Task) (s : State) : State :=
  match destination t with
  | NilConn => crash s
  | TCPConn _ =>
      match source t with
      | NilConn => crash (Close (destination t) s)
      | TCPConn _ => s
      end
  end.

(** The next step of goroutine [i]: the [defer] statements and the loop
    of [io.Copy], then the deferred calls, last deferred first.  A
    goroutine with a nil end panics in its [defer] statements, at its
    first step, so only a goroutine with two connections stays in the
    phase [Copying]. *)
Definition step (s : State) (c : nat * Outcome) : State :=
  let (i, o) := c in
  if crashed s then s
  else match goroutines s !! i with
       | None => s
       | Some t =>
           match phase t with
           | Copying =>
               let s' := deferCloses t s in
               if crashed s' then s' else copyStep i t o s'
           | ClosingSource =>
               let s' := Close (source t) s in
               if crashed s' then s'
               else setTask i (withPhase t ClosingDestination) s'
           | ClosingDestination =>
               let s' := Close (destination t) s in
               if crashed s' then s'
               else setTask i (withPhase t Finished) s'
           | Finished => s
           end
       end.

Definition run (sched : Schedule) (s : State) : State := foldl step s sched.

Definition releasedOf (s : State) (id : nat) : nat :=
  match descriptors s !! id with
  | Some d => released d
  | None => 0
  end.

Definition closeCallsOf (s : State) (id : nat) : nat :=
  match descriptors s !! id with
  | Some d => closeCalls d
  | None => 0
  end.

Definition isFinished (t : Task) : bool :=
  match phase t with
  | Finished => true
  | _ => false
  end.

(** The two ends of each goroutine. *)
Definition endpoints (s : State) : list (Conn * Conn) :=
  map (fun t => (destination t, source t)) (goroutines s).

(** ** The invariant of the relay *)

(** A descriptor is released when it is closed, and only then. *)
Definition consistent (d : Descriptor) : Prop :=
  released d = if isOpen d then 0%nat else 1%nat.

Definition known (m : gmap nat Descriptor) (c : Conn) : Prop :=
  exists id, c = TCPConn id /\ is_Some (m !! id).

(** A goroutine past its first deferred call has closed its source, a
    goroutine that returned has closed both ends. *)
Definition taskOk (m : gmap nat Descriptor) (t : Task) : Prop :=
  known m (source t) /\ known m (destination t) /\
  (phase t = ClosingDestination \/ phase t = Finished ->
   usable m (source t) = false) /\
  (phase t = Finished -> usable m (destination t) = false).

Record Inv (s : State) : Prop := {
  inv_alive : crashed s = false;
  inv_descriptors : forall id d, descriptors s !! id = Some d -> consistent d;
  inv_tasks : Forall (taskOk (descriptors s)) (goroutines s)
}.

(** The phase after one step that is not the copy of a chunk. *)
Definition next (p : Phase) : Phase :=
  match p with
  | Copying => ClosingSource
  | ClosingSource => ClosingDestination
  | ClosingDestination => Finished
  | Finished => Finished
  end.

End Relay.

(** * Checks by enumeration *)

(** Every sextet is decoded from the character that encodes it. *)
Definition sextetsRoundTrip : bool :=
  forallb (fun n => match Base64.decodeMap (Base64.encodeChar (N.of_nat n)) with
                    | Some m => N.eqb m (N.of_nat n)
                    | None => false
                    end) (seq 0 64).

(** * Observations on the outcome of a handler *)

(** The 407 answer of the authentication gate: the status line, the
    challenge header, the text, and nothing dialled or forwarded. *)
Definition rejected (w : World) : Prop :=
  wroteHeader (rw w) = true /\
  status (rw w) = StatusProxyAuthRequired /\
  sentHeader (rw w) !! "Proxy-Authenticate" = Some [challenge] /\
  written (rw w) = "Authorization required" ++ newline /\
  trace w = [EvWriteHeader StatusProxyAuthRequired;
             EvWrite ("Authorization required" ++ newline)].

(** The requests sent to origin servers. *)
Fixpoint outbound (tr : list Event) : list Request :=
  match tr with
  | [] => []
  | EvRoundTrip req :: tr' => req :: outbound tr'
  | _ :: tr' => outbound tr'
  end.

(** The addresses dialled. *)
Fixpoint dialled (tr : list Event) : list string :=
  match tr with
  | [] => []
  | EvDial a :: tr' => a :: dialled tr'
  | _ :: tr' => dialled tr'
  end.

(** The authentication gate of [Handler] as a test on the request:
    without a configured credential every request passes. *)
Definition passesGate (Cfg : config) (r : Request) : bool :=
  String.eqb (Auth Cfg) "" ||
  (negb (String.eqb (Header_Get (ReqHeader r) "Proxy-Authorization") "") &&
   checkAuth Cfg (Header_Get (ReqHeader r) "Proxy-Authorization")).

(** The headers [http.Error] leaves in a fresh header map. *)
Definition errorHeader : Header :=
  Header_Set (Header_Set ∅ "Content-Type" "text/plain; charset=utf-8")
    "X-Content-Type-Options" "nosniff".

(** What [http.Error] does to the header map of the handler. *)
Definition errorHeaders (h : Header) : Header :=
  Header_Set
    (Header_Set (Header_Del h "Content-Length")
       "Content-Type" "text/plain; charset=utf-8")
    "X-Content-Type-Options" "nosniff".

(** A status code that [WriteHeader] sends as the final status line:
    101 or one of 200 to 999. *)
Definition finalStatus (code : Z) : bool :=
  checkWriteHeaderCode code && negb (informational code).

(** The header keys as the transport's reader stores them. *)
Definition canonicalKeys (h : Header) : bool :=
  forallb (fun kv => String.eqb (TextProto.CanonicalMIMEHeaderKey (fst kv)) (fst kv))
    (map_to_list h).

(** [h[k]], [nil] read as the empty slice. *)
Definition values (h : Header) (k : string) : list string :=
  default [] (h !! k).

(** [strings.Join(chunks, "")]: the bytes of a body. *)
Fixpoint bytesOf (chunks : list string) : string :=
  match chunks with
  | [] => ""
  | chunk :: rest => chunk ++ bytesOf rest
  end.

(** The reads of a body that yield bytes. *)
Definition carrying (chunks : list string) : list string :=
  List.filter (fun chunk => negb (String.eqb chunk "")) chunks.

(** The body of a response is not longer than the length its
    Content-Length declares. *)
Definition withinDeclaredLength (resp : Response) : bool :=
  match declaredLength (Header_get (RespHeader resp) "Content-Length") with
  | Some v => (Z.of_nat (String.length (bytesOf (Body resp))) <=? v)%Z
  | None => true
  end.

(** * A concrete deployment

    [wproxy -a tt:123 -tproxy]: one reachable origin, one reachable
    CONNECT destination, everything else unreachable. *)

Module Scenario.

Definition cfg : config :=
  {| Addr := "0.0.0.0"; Port := "8888"; Auth := "tt:123";
     TProxy := true; Debug := false |}.

Definition created : Response :=
  {| StatusCode := 201;
     RespHeader := Header_Add (Header_Add ∅ "X-A" "1") "X-A" "2";
     Body := ["ok"] |}.

(** An answer with the status line [HTTP/1.1 099]. *)
Definition belowRange : Response :=
  {| StatusCode := 99;
     RespHeader := Header_Add ∅ "X-A" "1";
     Body := ["ok"] |}.

(** An answer 101, and what the origin sends after it. *)
Definition switching : Response :=
  {| StatusCode := 101;
     RespHeader := Header_Add (Header_Add ∅ "Connection" "Upgrade")
                     "Upgrade" "websocket";
     Body := ["ok"] |}.

Definition network : Network :=
  {| DialTimeout := fun address =>
       if String.eqb address "example.org:443" then DialOk 7
       else DialErr "dial tcp: lookup failed: no such host";
     RoundTrip := fun req =>
       if String.eqb (Host req) "example.org" then inl created
       else if String.eqb (Host req) "old.example" then inl belowRange
       else if String.eqb (Host req) "ws.example" then inl switching
       else inr "dial tcp: connection refused" |}.

Definition credential : Header :=
  Header_Set ∅ "Proxy-Authorization" "Basic dHQ6MTIz".

Definition request (method host remote : string) (h : Header) : Request :=
  {| Method := method; Host := host; RemoteAddr := remote;
     ReqHeader := h; ReqBody := "" |}.

Definition get : Request := request "GET" "example.org" "B:4711" credential.

Definition getChained : Request :=
  request "GET" "example.org" "B:4711" (Header_Set credential "X-Forwarded-For" "A").

Definition getNoPort : Request := request "GET" "example.org" "B" credential.

Definition getUnreachable : Request :=
  request "GET" "nowhere.invalid" "B:4711" credential.

Definition getBelowRange : Request :=
  request "GET" "old.example" "B:4711" credential.

Definition getSwitching : Request :=
  request "GET" "ws.example" "B:4711" credential.

Definition getAnonymous : Request := request "GET" "example.org" "B:4711" ∅.

Definition getWrongPassword : Request :=
  request "GET" "example.org" "B:4711"
    (Header_Set ∅ "Proxy-Authorization" "Basic dHQ6MTI0").

Definition getBearer : Request :=
  request "GET" "example.org" "B:4711"
    (Header_Set ∅ "Proxy-Authorization" "Bearer dHQ6MTIz").

Definition getMalformed : Request :=
  request "GET" "example.org" "B:4711"
    (Header_Set ∅ "Proxy-Authorization" "Basic dHQ6MTI").

Definition connect : Request :=
  request "CONNECT" "example.org:443" "B:4711" credential.

Definition connectUnreachable : Request :=
  request "CONNECT" "nowhere.invalid:443" "B:4711" credential.

End Scenario.

(** * The variant without the flag [-a]

    The [Handler] of the [main] that has no authentication: its [config]
    has no field [Auth], and the request goes to [handleTunneling] or
    [handleHTTP] at once. *)
Definition Handler0 (Cfg : config) (network : Network) (r : Request) : M unit :=
  if String.eqb (Method r) MethodConnect then handleTunneling Cfg network r
  else handleHTTP Cfg network r.

(** * Further observations *)

(** The configuration with the flag [-debug] set to [b]. *)
Definition withDebug (Cfg : config) (b : bool) : config :=
  {| Addr := Addr Cfg; Port := Port Cfg; Auth := Auth Cfg;
     TProxy := TProxy Cfg; Debug := b |}.

(** A world with the lines [lines] logged. *)
Definition withLogged (lines : list string) (w : World) : World :=
  {| rw := rw w; trace := trace w; logged := lines |}.

(** A computation that neither reads nor writes the log: it does the
    same whatever was logged before. *)
Definition logFree {A} (m : M A) : Prop :=
  forall w lines,
    m (withLogged lines w) = (fst (m w), withLogged lines (snd (m w))).



(** The configuration [init] builds when no flag is given: the default
    values of the flags [-addr], [-port], [-a], [-tproxy] and [-debug]. *)
Definition defaultConfig : config :=
  {| Addr := "0.0.0.0"; Port := "8888"; Auth := ""; TProxy := false;
     Debug := false |}.

(** The states of the relay of an established tunnel between the client
    connection [c] and the destination connection [d]. *)
Definition tunnelState (c d : nat) (s : Relay.State) : Prop :=
  Relay.Inv s /\
  Relay.endpoints s = [(TCPConn d, TCPConn c); (TCPConn c, TCPConn d)].

(** One of the two connections of the tunnel is closed. *)
Definition oneClosed (c d : nat) (s : Relay.State) : Prop :=
  Relay.usable (Relay.descriptors s) (TCPConn c) = false \/
  Relay.usable (Relay.descriptors s) (TCPConn d) = false.

(** The chunks each goroutine has copied so far. *)
Definition copiedBy (s : Relay.State) : list nat :=
  map Relay.copied (Relay.goroutines s).

(** The values of the entries of a header map that [Add] files under
    the key [k]. *)
Definition filedUnder (k : string) (entries : list (string * list string)) :
  list string :=
  concat (map snd
            (List.filter
               (fun kv => String.eqb (TextProto.CanonicalMIMEHeaderKey (fst kv)) k)
               entries)).

(** The first of the goroutines [0] to [n - 1] that a schedule runs. *)
Fixpoint firstRun (n : nat) (sched : Relay.Schedule) : option nat :=
  match sched with
  | [] => None
  | c :: rest => if (fst c <? n)%nat then Some (fst c) else firstRun n rest
  end.

(** Whether the interface value [c] is the connection [id]. *)
Definition connIs (c : Conn) (id : nat) : bool :=
  match c with
  | NilConn => false
  | TCPConn x => Nat.eqb x id
  end.

(** The deferred [Close] calls a goroutine has run on the connection
    [id]: [source.Close()] once it is past its first deferred call,
    [destination.Close()] once it has returned. *)
Definition closesRun (id : nat) (t : Relay.Task) : nat :=
  ((if connIs (Relay.source t) id then
      match Relay.phase t with
      | Relay.ClosingDestination | Relay.Finished => 1
      | _ => 0
      end
    else 0) +
   (if connIs (Relay.destination t) id then
      match Relay.phase t with
      | Relay.Finished => 1
      | _ => 0
      end
    else 0))%nat.

Definition closesRunOn (s : Relay.State) (id : nat) : nat :=
  list_sum (map (closesRun id) (Relay.goroutines s)).

(** [s] holds none of the bytes of [bytes]. *)
Fixpoint without (bytes : list ascii) (s : string) : bool :=
  match s with
  | EmptyString => true
  | String c s' => negb (existsb (Ascii.eqb c) bytes) && without bytes s'
  end.

(** The request as the next proxy on the path receives it: the same
    request, arriving from the address [remote]. *)
Definition arrivingFrom (remote : string) (req : Request) : Request :=
  {| Method := Method req; Host := Host req; RemoteAddr := remote;
     ReqHeader := ReqHeader req; ReqBody := ReqBody req |}.

(** A byte that is no character of the standard base64 alphabet, no
    padding and no line break. *)
Definition foreignByte (c : ascii) : bool :=
  match Base64.decodeMap c with
  | Some _ => false
  | None => negb (Base64.isNewline c) && negb (Ascii.eqb c Base64.padChar)
  end.

(** * Properties of the library models *)

(** ** base64: decoding inverts encoding *)

Lemma sextetsRoundTrip_true : sextetsRoundTrip = true.
Proof. vm_compute. reflexivity. Qed.

Lemma decodeMap_encodeChar v :
  v < 64 -> Base64.decodeMap (Base64.encodeChar v) = Some v.
Proof.
  intros Hv.
  pose proof sextetsRoundTrip_true as H.
  unfold sextetsRoundTrip in H.
  rewrite forallb_forall in H.
  specialize (H (N.to_nat v)).
  rewrite N2Nat.id in H.
  destruct (Base64.decodeMap (Base64.encodeChar v)) as [m|].
  - f_equal. apply N.eqb_eq. apply H. apply in_seq. lia.
  - discriminate H. apply in_seq. lia.
Qed.

Lemma byte_of_ascii a : Base64.byte (N_of_ascii a) = a.
Proof.
  unfold Base64.byte. rewrite N.mod_small by apply N_ascii_bounded.
  apply ascii_N_embedding.
Qed.

Ltac name_divmod a k :=
  let q := fresh "q" in
  let r := fresh "r" in
  pose proof (N.div_mod a k ltac:(lia));
  pose proof (N.mod_lt a k ltac:(lia));
  set (q := a / k) in *; set (r := a mod k) in *; clearbody q r.

Ltac split_bytes a b c :=
  name_divmod a 4; name_divmod b 16; name_divmod c 64.

Lemma sextets_bounded a b c :
  a < 256 -> b < 256 -> c < 256 ->
  a / 4 < 64 /\ a mod 4 * 16 + b / 16 < 64 /\
  b mod 16 * 4 + c / 64 < 64 /\ c mod 64 < 64 /\
  a mod 4 * 16 < 64 /\ b mod 16 * 4 < 64.
Proof. intros. split_bytes a b c. lia. Qed.

Lemma quantum_three a b c :
  a < 256 -> b < 256 -> c < 256 ->
  Base64.quantum (a / 4) (a mod 4 * 16 + b / 16) (b mod 16 * 4 + c / 64) (c mod 64)
  = a * 65536 + b * 256 + c.
Proof. intros. unfold Base64.quantum. split_bytes a b c. lia. Qed.

Lemma quantum_two a b :
  a < 256 -> b < 256 ->
  Base64.quantum (a / 4) (a mod 4 * 16 + b / 16) (b mod 16 * 4) 0
  = a * 65536 + b * 256 + 0.
Proof. intros. unfold Base64.quantum. name_divmod a 4. name_divmod b 16. lia. Qed.

Lemma quantum_one a :
  a < 256 ->
  Base64.quantum (a / 4) (a mod 4 * 16) 0 0 = a * 65536 + 0 * 256 + 0.
Proof. intros. unfold Base64.quantum. name_divmod a 4. lia. Qed.

Lemma bytes_of_quantum a b c :
  a < 256 -> b < 256 -> c < 256 ->
  let val := a * 65536 + b * 256 + c in
  Base64.byte (val / 65536) = ascii_of_N a /\
  Base64.byte (val / 256) = ascii_of_N b /\
  Base64.byte val = ascii_of_N c.
Proof.
  intros Ha Hb Hc val. unfold Base64.byte.
  assert (H1 : val / 65536 = a).
  { symmetry. apply (N.div_unique val 65536 a (b * 256 + c)); subst val; lia. }
  assert (H2 : val / 256 = a * 256 + b).
  { symmetry. apply (N.div_unique val 256 (a * 256 + b) c); subst val; lia. }
  rewrite H1, H2. repeat split; f_equal.
  - apply N.mod_small; lia.
  - symmetry. apply (N.mod_unique _ 256 a b); lia.
  - symmetry. apply (N.mod_unique val 256 (a * 256 + b) c); subst val; lia.
Qed.

Lemma decode_sextet c v rest dbuf :
  Base64.decodeMap c = Some v ->
  Base64.decode (String c rest) dbuf =
  match dbuf with
  | [d0; d1; d2] =>
      let val := Base64.quantum d0 d1 d2 v in
      match Base64.decode rest [] with
      | Some tl =>
          Some (String (Base64.byte (val / 65536))
                  (String (Base64.byte (val / 256)) (String (Base64.byte val) tl)))
      | None => None
      end
  | _ => Base64.decode rest (dbuf ++ [v])%list
  end.
Proof. intros H. cbn [Base64.decode]. rewrite H. reflexivity. Qed.

(** Encoding then decoding a string of fewer than [n] bytes. *)
Lemma decode_encode_below n :
  forall s, (String.length s < n)%nat ->
            Base64.decode (Base64.EncodeToString s) [] = Some s.
Proof.
  induction n as [|n IH]; intros s Hlen; [lia|].
  destruct s as [|a [|b [|c rest]]].
  - reflexivity.
  - cbn [Base64.EncodeToString].
    pose proof (N_ascii_bounded a) as Ha.
    destruct (sextets_bounded (N_of_ascii a) 0 0) as (H0 & _ & _ & _ & H1 & _);
      [lia..|].
    rewrite (decode_sextet _ _ _ _ (decodeMap_encodeChar _ H0)). cbn [app].
    rewrite (decode_sextet _ _ _ _ (decodeMap_encodeChar _ H1)). cbn [app].
    cbn [Base64.decode].
    change (Base64.decodeMap Base64.padChar) with (@None N).
    change (Base64.isNewline Base64.padChar) with false.
    change (Ascii.eqb Base64.padChar Base64.padChar) with true.
    cbv iota.
    change (Base64.secondPad (String Base64.padChar "")) with true.
    cbv iota.
    rewrite quantum_one by assumption.
    destruct (bytes_of_quantum (N_of_ascii a) 0 0) as (E0 & _); [lia..|].
    cbv zeta in E0. rewrite E0, ascii_N_embedding. reflexivity.
  - cbn [Base64.EncodeToString].
    pose proof (N_ascii_bounded a) as Ha. pose proof (N_ascii_bounded b) as Hb.
    destruct (sextets_bounded (N_of_ascii a) (N_of_ascii b) 0)
      as (H0 & H1 & _ & _ & _ & H2); [lia..|].
    rewrite (decode_sextet _ _ _ _ (decodeMap_encodeChar _ H0)). cbn [app].
    rewrite (decode_sextet _ _ _ _ (decodeMap_encodeChar _ H1)). cbn [app].
    rewrite (decode_sextet _ _ _ _ (decodeMap_encodeChar _ H2)). cbn [app].
    cbn [Base64.decode].
    change (Base64.decodeMap Base64.padChar) with (@None N).
    change (Base64.isNewline Base64.padChar) with false.
    change (Ascii.eqb Base64.padChar Base64.padChar) with true.
    cbv iota.
    change (Base64.onlyNewlines "") with true.
    cbv iota.
    rewrite quantum_two by assumption.
    destruct (bytes_of_quantum (N_of_ascii a) (N_of_ascii b) 0) as (E0 & E1 & _);
      [lia..|].
    cbv zeta in E0, E1. rewrite E0, E1, !ascii_N_embedding. reflexivity.
  - cbn [Base64.EncodeToString].
    pose proof (N_ascii_bounded a) as Ha. pose proof (N_ascii_bounded b) as Hb.
    pose proof (N_ascii_bounded c) as Hc.
    destruct (sextets_bounded (N_of_ascii a) (N_of_ascii b) (N_of_ascii c))
      as (H0 & H1 & H2 & H3 & _ & _); [assumption..|].
    rewrite (decode_sextet _ _ _ _ (decodeMap_encodeChar _ H0)). cbn [app].
    rewrite (decode_sextet _ _ _ _ (decodeMap_encodeChar _ H1)). cbn [app].
    rewrite (decode_sextet _ _ _ _ (decodeMap_encodeChar _ H2)). cbn [app].
    rewrite (decode_sextet _ _ _ _ (decodeMap_encodeChar _ H3)).
    rewrite IH by (cbn [String.length] in Hlen; lia).
    cbv zeta.
    rewrite quantum_three by assumption.
    destruct (bytes_of_quantum (N_of_ascii a) (N_of_ascii b) (N_of_ascii c))
      as (E0 & E1 & E2); [assumption..|].
    cbv zeta in E0, E1, E2. rewrite E0, E1, E2, !ascii_N_embedding. reflexivity.
Qed.

Lemma DecodeString_EncodeToString s :
  Base64.DecodeString (Base64.EncodeToString s) = Some s.
Proof.
  unfold Base64.DecodeString.
  apply (decode_encode_below (S (String.length s))). lia.
Qed.

(** ** strings.SplitN *)

Lemma append_String c s t : String c s ++ t = String c (s ++ t).
Proof. reflexivity. Qed.

Lemma HasPrefix_drop s sep :
  GoStrings.HasPrefix s sep = true ->
  s = sep ++ GoStrings.drop (String.length sep) s.
Proof.
  revert s. induction sep as [|c sep IH]; intros s H.
  - reflexivity.
  - destruct s as [|d s]; [discriminate|].
    cbn [GoStrings.HasPrefix] in H.
    destruct (Ascii.eqb c d) eqn:E; [|discriminate].
    apply Ascii.eqb_eq in E. subst d.
    cbn [String.length GoStrings.drop]. rewrite append_String.
    f_equal. apply IH, H.
Qed.

Lemma Cut_append s sep before after :
  GoStrings.Cut s sep = Some (before, after) ->
  s = before ++ sep ++ after.
Proof.
  revert before after. induction s as [|c s IH]; intros before after H.
  - cbn [GoStrings.Cut] in H.
    destruct (GoStrings.HasPrefix "" sep) eqn:E; [|discriminate].
    injection H as <- <-. apply HasPrefix_drop, E.
  - cbn [GoStrings.Cut] in H.
    destruct (GoStrings.HasPrefix (String c s) sep) eqn:E.
    + injection H as <- <-. apply HasPrefix_drop, E.
    + destruct (GoStrings.Cut s sep) as [[b a]|]; [|discriminate].
      injection H as <- <-. rewrite append_String. f_equal. apply IH. reflexivity.
Qed.

(** ** checkAuth *)

Lemma checkAuth_Basic Cfg payload :
  checkAuth Cfg ("Basic " ++ payload) =
  match Base64.DecodeString payload with
  | None => false
  | Some p => String.eqb p (Auth Cfg)
  end.
Proof. reflexivity. Qed.

Lemma checkAuth_true Cfg auth :
  checkAuth Cfg auth = true ->
  exists payload, auth = "Basic " ++ payload /\
                  Base64.DecodeString payload = Some (Auth Cfg).
Proof.
  unfold checkAuth. cbn [GoStrings.SplitN].
  destruct (GoStrings.Cut auth " ") as [[c0 c1]|] eqn:E; [|discriminate].
  apply Cut_append in E.
  destruct (String.eqb c0 "Basic") eqn:E0; [|discriminate].
  apply String.eqb_eq in E0. subst c0. cbn [negb].
  destruct (Base64.DecodeString c1) as [p|] eqn:E1; [|discriminate].
  intros Hp. apply String.eqb_eq in Hp. subst p.
  exists c1. split; [exact E | exact E1].
Qed.

Lemma checkAuth_false Cfg auth :
  (forall payload, auth = "Basic " ++ payload ->
                   Base64.DecodeString payload <> Some (Auth Cfg)) ->
  checkAuth Cfg auth = false.
Proof.
  intros H. destruct (checkAuth Cfg auth) eqn:E; [|reflexivity].
  apply checkAuth_true in E. destruct E as (p & -> & Hp).
  exfalso. exact (H p eq_refl Hp).
Qed.

Lemma checkAuth_encoded Cfg :
  checkAuth Cfg ("Basic " ++ Base64.EncodeToString (Auth Cfg)) = true.
Proof.
  rewrite checkAuth_Basic, DecodeString_EncodeToString. apply String.eqb_refl.
Qed.

(** ** The request handler *)

Lemma Header_Get_absent (h : Header) key :
  h !! TextProto.CanonicalMIMEHeaderKey key = None -> Header_Get h key = "".
Proof. unfold Header_Get. intros ->. reflexivity. Qed.

Lemma Handler_passes Cfg network r :
  passesGate Cfg r = true ->
  Handler Cfg network r =
  if String.eqb (Method r) MethodConnect then handleTunneling Cfg network r
  else handleHTTP Cfg network r.
Proof.
  unfold passesGate, Handler. intros H.
  destruct (String.eqb (Auth Cfg) ""); [reflexivity|].
  cbn [negb orb] in *.
  apply andb_true_iff in H. destruct H as [H1 H2].
  rewrite H2. apply negb_true_iff in H1. rewrite H1. reflexivity.
Qed.

Lemma Handler_rejects Cfg network r h :
  passesGate Cfg r = false ->
  rejected (exec (Handler Cfg network r) (newWorld h)).
Proof.
  unfold passesGate, Handler. intros H.
  apply orb_false_iff in H. destruct H as [H0 H].
  rewrite H0. cbn [negb].
  assert (E : String.eqb (Header_Get (ReqHeader r) "Proxy-Authorization") ""
              || negb (checkAuth Cfg (Header_Get (ReqHeader r) "Proxy-Authorization"))
              = true).
  { destruct (String.eqb (Header_Get (ReqHeader r) "Proxy-Authorization") "");
      [reflexivity|].
    cbn [negb andb orb] in *. rewrite H. reflexivity. }
  rewrite E. unfold rejected. repeat split.
Qed.

(** Without a credential ([-a] not given, and the variant of [main.go]
    that has no gate) every request is dispatched. *)
Lemma Handler_without_credential Cfg network r :
  Auth Cfg = "" ->
  Handler Cfg network r =
  if String.eqb (Method r) MethodConnect then handleTunneling Cfg network r
  else handleHTTP Cfg network r.
Proof. intros E. unfold Handler. rewrite E. reflexivity. Qed.

Lemma append_inj_r s t1 t2 : s ++ t1 = s ++ t2 -> t1 = t2.
Proof.
  induction s as [|c s IH]; intros H; [exact H|].
  rewrite !append_String in H. injection H as H. auto.
Qed.

(** C1: with a credential configured, a request without the
    Proxy-Authorization header, with a value that does not start with
    "Basic " (the scheme and one space), with a payload that is not
    base64, or with a payload that decodes to something else than the
    credential is answered 407 with the Proxy-Authenticate challenge and
    nothing is dialled or forwarded; a request whose header is "Basic "
    followed by the base64 encoding of the credential is handled by
    [handleTunneling] or [handleHTTP]. *)
Theorem auth_gate Cfg network r h :
  Auth Cfg <> "" ->
  let auth := Header_Get (ReqHeader r) "Proxy-Authorization" in
  let answer := exec (Handler Cfg network r) (newWorld h) in
  (ReqHeader r !! "Proxy-Authorization" = None -> rejected answer) /\
  ((forall payload, auth <> "Basic " ++ payload) -> rejected answer) /\
  (forall payload,
      auth = "Basic " ++ payload ->
      Base64.DecodeString payload = None -> rejected answer) /\
  (forall payload decoded,
      auth = "Basic " ++ payload ->
      Base64.DecodeString payload = Some decoded ->
      decoded <> Auth Cfg -> rejected answer) /\
  (auth = "Basic " ++ Base64.EncodeToString (Auth Cfg) ->
   Handler Cfg network r =
   if String.eqb (Method r) MethodConnect then handleTunneling Cfg network r
   else handleHTTP Cfg network r).
Proof.
  intros Hcfg auth answer.
  assert (Hne : String.eqb (Auth Cfg) "" = false)
    by (apply String.eqb_neq; exact Hcfg).
  assert (Hrej : checkAuth Cfg auth = false \/ auth = "" -> rejected answer).
  { intros Hc. apply Handler_rejects. unfold passesGate. rewrite Hne.
    fold auth. cbn [orb]. destruct Hc as [-> | ->].
    - apply andb_false_r.
    - reflexivity. }
  split; [|split; [|split; [|split]]].
  - intros Habs. apply Hrej. right. apply Header_Get_absent. exact Habs.
  - intros Hscheme. apply Hrej. left. apply checkAuth_false.
    intros p Hp. exfalso. exact (Hscheme p Hp).
  - intros p Hp Hdec. apply Hrej. left. apply checkAuth_false.
    intros p' Hp'. rewrite Hp in Hp'. apply append_inj_r in Hp'. subst p'.
    rewrite Hdec. discriminate.
  - intros p d Hp Hdec Hd. apply Hrej. left. apply checkAuth_false.
    intros p' Hp'. rewrite Hp in Hp'. apply append_inj_r in Hp'. subst p'.
    rewrite Hdec. intros E. injection E as E. exact (Hd E).
  - intros Hgood. apply Handler_passes. unfold passesGate. rewrite Hne.
    fold auth. rewrite Hgood, checkAuth_encoded. reflexivity.
Qed.

Lemma auth_gate_witness :
  rejected (exec (Handler Scenario.cfg Scenario.network Scenario.getAnonymous)
              (newWorld None)) /\
  rejected (exec (Handler Scenario.cfg Scenario.network Scenario.getBearer)
              (newWorld None)) /\
  rejected (exec (Handler Scenario.cfg Scenario.network Scenario.getMalformed)
              (newWorld None)) /\
  rejected (exec (Handler Scenario.cfg Scenario.network Scenario.getWrongPassword)
              (newWorld None)) /\
  Handler Scenario.cfg Scenario.network Scenario.get =
  handleHTTP Scenario.cfg Scenario.network Scenario.get.
Proof.
  assert (Hcfg : Auth Scenario.cfg <> "") by discriminate.
  split; [|split; [|split; [|split]]].
  - apply (proj1
      (auth_gate Scenario.cfg Scenario.network Scenario.getAnonymous None Hcfg)).
    reflexivity.
  - apply (proj1 (proj2
      (auth_gate Scenario.cfg Scenario.network Scenario.getBearer None Hcfg))).
    intros payload. vm_compute. discriminate.
  - apply (proj1 (proj2 (proj2
      (auth_gate Scenario.cfg Scenario.network Scenario.getMalformed None Hcfg)))
      "dHQ6MTI"); reflexivity.
  - apply (proj1 (proj2 (proj2 (proj2
      (auth_gate Scenario.cfg Scenario.network Scenario.getWrongPassword None Hcfg))))
      "dHQ6MTI0" "tt:124"); [reflexivity | reflexivity | discriminate].
  - apply (proj2 (proj2 (proj2 (proj2
      (auth_gate Scenario.cfg Scenario.network Scenario.get None Hcfg))))).
    reflexivity.
Defined.

(** ** The response writer *)

Lemma append_nil_r s : s ++ "" = s.
Proof. induction s as [|c s IH]; [reflexivity|]. rewrite append_String, IH. reflexivity. Qed.

Lemma append_assoc s t u : (s ++ t) ++ u = s ++ (t ++ u).
Proof.
  induction s as [|c s IH]; [reflexivity|].
  rewrite !append_String, IH. reflexivity.
Qed.

Lemma length_append s t :
  String.length (s ++ t) = (String.length s + String.length t)%nat.
Proof.
  induction s as [|c s IH]; [reflexivity|].
  rewrite append_String. cbn [String.length]. rewrite IH. reflexivity.
Qed.

Lemma commit_committed code r : wroteHeader r = true -> commit code r = r.
Proof. unfold commit. intros ->. reflexivity. Qed.

(** The writer after it has taken the bytes [data] for a client that
    stays connected. *)
Lemma accepted_nil r :
  appendBody (attempt r (Z.of_nat (String.length ""))) "" = r.
Proof.
  destruct r. unfold appendBody, attempt. cbn.
  rewrite append_nil_r, Z.add_0_r. reflexivity.
Qed.

Lemma accepted_accepted r s t :
  appendBody (attempt (appendBody (attempt r (Z.of_nat (String.length s))) s)
                (Z.of_nat (String.length t))) t =
  appendBody (attempt r (Z.of_nat (String.length (s ++ t)))) (s ++ t).
Proof.
  unfold appendBody, attempt. cbn.
  rewrite append_assoc, length_append, Nat2Z.inj_add, Z.add_assoc. reflexivity.
Qed.

Lemma taken_connected r : clientTakes r = None -> taken r = r.
Proof. destruct r. unfold taken. cbn. intros ->. reflexivity. Qed.

(** A write the writer takes: the status allows a body, the declared
    length is not exceeded and the client is connected. *)
Lemma Write_taken data r tr lg :
  hijacked r = false -> wroteHeader r = true -> data <> "" ->
  bodyAllowedForStatus (status r) = true ->
  overLength (attempt r (Z.of_nat (String.length data))) = false ->
  clientTakes r = None ->
  Write data {| rw := r; trace := tr; logged := lg |} =
  (Some true,
   {| rw := appendBody (attempt r (Z.of_nat (String.length data))) data;
      trace := (tr ++ [EvWrite data])%list; logged := lg |}).
Proof.
  intros Hh Hw Hd Hb Ho Hc.
  unfold Write, bind, emit, getWriter, putWriter, ret. cbn.
  rewrite Hh, commit_committed by exact Hw.
  apply String.eqb_neq in Hd. rewrite Hd, Hb. cbn [negb].
  rewrite Ho. unfold clientLost. cbn [clientTakes attempt]. rewrite Hc.
  rewrite taken_connected by exact Hc. reflexivity.
Qed.

(** The line [http.Error] prints, on a writer that takes it. *)
Lemma Write_line error r tr lg :
  hijacked r = false -> wroteHeader r = true ->
  bodyAllowedForStatus (status r) = true ->
  contentLength r = None -> clientTakes r = None ->
  Write (error ++ newline) {| rw := r; trace := tr; logged := lg |} =
  (Some true,
   {| rw := appendBody
              (attempt r (Z.of_nat (String.length (error ++ newline))))
              (error ++ newline);
      trace := (tr ++ [EvWrite (error ++ newline)])%list; logged := lg |}).
Proof.
  intros Hh Hw Hb Hl Hc. apply Write_taken; try assumption.
  - destruct error; discriminate.
  - unfold overLength. cbn [contentLength attempt]. rewrite Hl. reflexivity.
Qed.

Lemma errorHeaders_no_length (h : Header) :
  Header_get (errorHeaders h) "Content-Length" = "".
Proof.
  unfold Header_get, errorHeaders, Header_Set, Header_Del.
  change (TextProto.CanonicalMIMEHeaderKey "X-Content-Type-Options")
    with "X-Content-Type-Options".
  change (TextProto.CanonicalMIMEHeaderKey "Content-Type") with "Content-Type".
  change (TextProto.CanonicalMIMEHeaderKey "Content-Length") with "Content-Length".
  rewrite lookup_insert_ne by discriminate.
  rewrite lookup_insert_ne by discriminate.
  rewrite lookup_delete_eq. reflexivity.
Qed.

(** [http.Error] on a writer that has written no header: the status and
    the headers of the error are committed and the line is the body. *)
Lemma http_Error_fresh error code r tr lg :
  hijacked r = false -> wroteHeader r = false ->
  finalStatus code = true -> bodyAllowedForStatus code = true ->
  clientTakes r = None ->
  http_Error error code {| rw := r; trace := tr; logged := lg |} =
  (Some tt,
   {| rw := appendBody
              (attempt (commit code (mapHeader errorHeaders r))
                 (Z.of_nat (String.length (error ++ newline))))
              (error ++ newline);
      trace := (tr ++ [EvWriteHeader code; EvWrite (error ++ newline)])%list;
      logged := lg |}).
Proof.
  intros Hh Hw Hf Hb Hc. unfold finalStatus in Hf.
  apply andb_true_iff in Hf. destruct Hf as [Hvalid Hf].
  apply negb_true_iff in Hf.
  unfold http_Error, withHeader, WriteHeader.
  unfold bind at 1 2 3 4 5 6 7 8. cbn -[Write commit checkWriteHeaderCode errorHeaders].
  rewrite Hh, Hw, Hvalid.
  cbn -[Write commit checkWriteHeaderCode errorHeaders].
  unfold bind.
  change (mapHeader _ (mapHeader _ (mapHeader _ r)))
    with (mapHeader errorHeaders r).
  rewrite Write_line.
  - rewrite <- app_assoc. reflexivity.
  - unfold commit. cbn. rewrite Hw, Hf. cbn. exact Hh.
  - unfold commit. cbn. rewrite Hw, Hf. reflexivity.
  - unfold commit. cbn. rewrite Hw, Hf. cbn. exact Hb.
  - unfold commit. cbn -[errorHeaders]. rewrite Hw, Hf.
    cbn -[errorHeaders]. rewrite errorHeaders_no_length. reflexivity.
  - unfold commit. cbn. rewrite Hw, Hf. cbn. exact Hc.
Qed.

(** [http.Error] on a writer that has written its header: the status
    stays, the headers of the error only reach the map of the handler,
    and the line is added to the body. *)
Lemma http_Error_committed error code r tr lg :
  hijacked r = false -> wroteHeader r = true ->
  bodyAllowedForStatus (status r) = true ->
  contentLength r = None -> clientTakes r = None ->
  http_Error error code {| rw := r; trace := tr; logged := lg |} =
  (Some tt,
   {| rw := appendBody
              (attempt (mapHeader errorHeaders r)
                 (Z.of_nat (String.length (error ++ newline))))
              (error ++ newline);
      trace := (tr ++ [EvWriteHeader code; EvWrite (error ++ newline)])%list;
      logged := lg |}).
Proof.
  intros Hh Hw Hb Hl Hc.
  unfold http_Error, withHeader, WriteHeader.
  unfold bind at 1 2 3 4 5 6 7 8. cbn -[Write commit checkWriteHeaderCode errorHeaders].
  rewrite Hh, Hw.
  cbn -[Write commit checkWriteHeaderCode errorHeaders].
  unfold bind.
  change (mapHeader _ (mapHeader _ (mapHeader _ r)))
    with (mapHeader errorHeaders r).
  rewrite Write_line by assumption.
  rewrite <- app_assoc. reflexivity.
Qed.

Ltac print_line :=
  unfold bind;
  repeat first
    [ rewrite http_Error_fresh by reflexivity
    | rewrite http_Error_committed by reflexivity ].

Lemma bytesOf_empty chunk rest :
  bytesOf (chunk :: rest) = "" -> chunk = "" /\ bytesOf rest = "".
Proof.
  cbn [bytesOf]. destruct chunk as [|c chunk]; [auto|].
  rewrite append_String. discriminate.
Qed.

(** The copy of a body the writer takes whole. *)
Lemma io_Copy_run chunks :
  forall r tr lg,
    hijacked r = false -> wroteHeader r = true -> clientTakes r = None ->
    bodyAllowedForStatus (status r) = true \/ bytesOf chunks = "" ->
    (forall v, contentLength r = Some v ->
               (attempted r + Z.of_nat (String.length (bytesOf chunks)) <= v)%Z) ->
    io_Copy chunks {| rw := r; trace := tr; logged := lg |} =
    (Some tt,
     {| rw := appendBody (attempt r (Z.of_nat (String.length (bytesOf chunks))))
                (bytesOf chunks);
        trace := (tr ++ map EvWrite (carrying chunks))%list;
        logged := lg |}).
Proof.
  induction chunks as [|chunk rest IH]; intros r tr lg Hh Hw Hc Hb Hl.
  - cbn. rewrite accepted_nil, app_nil_r. reflexivity.
  - cbn [io_Copy carrying List.filter].
    destruct (String.eqb chunk "") eqn:He; cbn [negb].
    + apply String.eqb_eq in He. subst chunk.
      rewrite IH by assumption. reflexivity.
    + unfold bind at 1. apply String.eqb_neq in He.
      assert (Hb' : bodyAllowedForStatus (status r) = true).
      { destruct Hb as [Hb|Hb]; [exact Hb|].
        apply bytesOf_empty in Hb. destruct Hb as [Hb _]. contradiction. }
      assert (Ho : overLength (attempt r (Z.of_nat (String.length chunk))) = false).
      { unfold overLength. cbn [contentLength attempt attempted].
        destruct (contentLength r) as [v|] eqn:Ev; [|reflexivity].
        specialize (Hl v eq_refl). cbn [bytesOf] in Hl.
        rewrite length_append, Nat2Z.inj_add in Hl.
        apply Z.ltb_ge. lia. }
      rewrite Write_taken by assumption.
      fold (carrying rest). rewrite IH.
      * cbn [bytesOf map]. rewrite accepted_accepted, <- app_assoc. reflexivity.
      * exact Hh.
      * exact Hw.
      * exact Hc.
      * left. exact Hb'.
      * intros v Hv. cbn [contentLength attempt appendBody attempted] in Hv |- *.
        specialize (Hl v Hv). cbn [bytesOf] in Hl.
        rewrite length_append, Nat2Z.inj_add in Hl. lia.
Qed.

(** Whatever the writer does with it, a write is one event, does not
    panic and logs nothing. *)
Lemma Write_effects data w :
  exists ok r',
    Write data w =
    (Some ok, {| rw := r'; trace := (trace w ++ [EvWrite data])%list;
                 logged := logged w |}).
Proof.
  unfold Write, bind, emit, getWriter, putWriter, ret. cbn.
  destruct (hijacked (rw w)); [eauto|].
  destruct (String.eqb data ""); [eauto|].
  destruct (negb _); [eauto|].
  destruct (overLength _); [eauto|].
  destruct (clientLost _); eauto.
Qed.

(** The copy of a body writes the reads that yield bytes, in their
    order, up to the first write that fails. *)
Lemma io_Copy_effects chunks :
  forall w, exists n r',
    io_Copy chunks w =
    (Some tt, {| rw := r';
                 trace := (trace w ++ map EvWrite (take n (carrying chunks)))%list;
                 logged := logged w |}).
Proof.
  induction chunks as [|chunk rest IH]; intros w.
  - exists 0%nat, (rw w). cbn. rewrite app_nil_r. destruct w; reflexivity.
  - cbn [io_Copy carrying List.filter].
    destruct (String.eqb chunk ""); cbn [negb]; [apply IH|].
    fold (carrying rest). unfold bind at 1.
    destruct (Write_effects chunk w) as (ok & r1 & ->).
    destruct ok.
    + destruct (IH {| rw := r1; trace := (trace w ++ [EvWrite chunk])%list;
                     logged := logged w |}) as (n & r' & ->).
      exists (S n), r'. cbn [trace logged take map].
      rewrite <- app_assoc. reflexivity.
    + exists 1%nat, r1. cbn. rewrite take_0. reflexivity.
Qed.

(** ** copyHeader *)

Lemma values_empty k : values ∅ k = [].
Proof. unfold values. rewrite lookup_empty. reflexivity. Qed.

Lemma values_absent (h : Header) k : h !! k = None -> values h k = [].
Proof. unfold values. intros ->. reflexivity. Qed.

Lemma values_insert (h : Header) k vv k' :
  values (<[k := vv]> h) k' = if decide (k = k') then vv else values h k'.
Proof.
  unfold values. destruct (decide (k = k')) as [<-|Hne].
  - rewrite lookup_insert_eq. reflexivity.
  - rewrite lookup_insert_ne by exact Hne. reflexivity.
Qed.

Lemma values_Header_Add (h : Header) k v k' :
  TextProto.CanonicalMIMEHeaderKey k = k ->
  values (Header_Add h k v) k' =
  if decide (k = k') then (values h k ++ [v])%list else values h k'.
Proof.
  intros Hk. unfold values, Header_Add. rewrite Hk.
  destruct (decide (k = k')) as [<-|Hne].
  - rewrite lookup_insert_eq. reflexivity.
  - rewrite lookup_insert_ne by exact Hne. reflexivity.
Qed.

Lemma values_addValues k vv :
  TextProto.CanonicalMIMEHeaderKey k = k ->
  forall (dst : Header) k',
    values (addValues k dst vv) k' =
    if decide (k = k') then (values dst k ++ vv)%list else values dst k'.
Proof.
  intros Hk. unfold addValues.
  induction vv as [|v vv IH]; intros dst k'; cbn [foldl].
  - destruct (decide (k = k')) as [<-|]; [rewrite app_nil_r|]; reflexivity.
  - rewrite IH, !values_Header_Add by exact Hk.
    destruct (decide (k = k')) as [<-|Hne].
    + rewrite decide_True by reflexivity. rewrite <- app_assoc. reflexivity.
    + reflexivity.
Qed.

(** Whatever the order in which the keys are visited, a key of the source
    receives its values in their order, after those the destination had. *)
Lemma values_copyHeaderIn (entries : list (string * list string)) :
  (forall k vv, (k, vv) ∈ entries -> TextProto.CanonicalMIMEHeaderKey k = k) ->
  NoDup (entries.*1) ->
  forall (dst : Header) k,
    values (copyHeaderIn entries dst) k =
    (values dst k ++ values (list_to_map entries) k)%list.
Proof.
  unfold copyHeaderIn.
  induction entries as [|[k0 vv0] rest IH]; intros Hcanon Hnodup dst k.
  - cbn. rewrite values_empty, app_nil_r. reflexivity.
  - cbn [foldl fst snd]. cbn in Hnodup. apply NoDup_cons in Hnodup.
    destruct Hnodup as [Hfresh Hnodup].
    rewrite IH; [|intros k1 vv1 Hin; apply (Hcanon k1 vv1); right; exact Hin
                 |exact Hnodup].
    rewrite values_addValues by (apply (Hcanon k0 vv0); left).
    cbn [list_to_map foldr uncurry]. rewrite values_insert. cbn [fst snd].
    destruct (decide (k0 = k)) as [<-|Hne]; [|reflexivity].
    apply not_elem_of_list_to_map_1 in Hfresh.
    rewrite (values_absent _ _ Hfresh), app_nil_r. reflexivity.
Qed.

Lemma canonicalKeys_lookup (h : Header) k vv :
  canonicalKeys h = true -> (k, vv) ∈ map_to_list h ->
  TextProto.CanonicalMIMEHeaderKey k = k.
Proof.
  unfold canonicalKeys. rewrite forallb_forall. intros H Hin.
  apply list_elem_of_In in Hin. apply H in Hin. apply String.eqb_eq, Hin.
Qed.

Lemma values_copyHeader_any_order (src dst : Header) entries k :
  canonicalKeys src = true ->
  entries ≡ₚ map_to_list src ->
  values (copyHeaderIn entries dst) k = (values dst k ++ values src k)%list.
Proof.
  intros Hcanon Hperm.
  rewrite values_copyHeaderIn.
  - rewrite (list_to_map_proper entries (map_to_list src)), list_to_map_to_list.
    + reflexivity.
    + rewrite Hperm. apply NoDup_fst_map_to_list.
    + exact Hperm.
  - intros k1 vv1 Hin. rewrite Hperm in Hin.
    exact (canonicalKeys_lookup src k1 vv1 Hcanon Hin).
  - rewrite Hperm. apply NoDup_fst_map_to_list.
Qed.

Lemma values_copyHeader (src dst : Header) k :
  canonicalKeys src = true ->
  values (copyHeader dst src) k = (values dst k ++ values src k)%list.
Proof. intros H. apply values_copyHeader_any_order; [exact H | reflexivity]. Qed.

(** ** Canonical header keys

    The keys of a header map filled through [Add] and [Set], as the
    transport's reader fills the header of a response, are canonical. *)

Lemma canonicalByte_fixed upper c :
  TextProto.validHeaderFieldByte c = true ->
  TextProto.validHeaderFieldByte (TextProto.canonicalByte upper c) = true /\
  TextProto.canonicalByte upper (TextProto.canonicalByte upper c) =
  TextProto.canonicalByte upper c.
Proof.
  destruct upper; destruct c as [[] [] [] [] [] [] [] []];
    intros H; vm_compute in H |- *; first [discriminate H | split; reflexivity].
Qed.

Lemma canonicalize_fixed a :
  forall upper,
    TextProto.allValid a = true ->
    TextProto.allValid (TextProto.canonicalize upper a) = true /\
    TextProto.canonicalize upper (TextProto.canonicalize upper a) =
    TextProto.canonicalize upper a.
Proof.
  induction a as [|c a IH]; intros upper H; [split; reflexivity|].
  cbn [TextProto.allValid] in H. apply andb_true_iff in H. destruct H as [Hc Ha].
  destruct (canonicalByte_fixed upper c Hc) as [Hv Hf].
  cbn [TextProto.canonicalize TextProto.allValid]. cbv zeta.
  destruct (IH (Ascii.eqb (TextProto.canonicalByte upper c) "-"%char) Ha) as [IH1 IH2].
  rewrite Hv, IH1, Hf, IH2. split; reflexivity.
Qed.

Lemma CanonicalMIMEHeaderKey_idempotent k :
  TextProto.CanonicalMIMEHeaderKey (TextProto.CanonicalMIMEHeaderKey k) =
  TextProto.CanonicalMIMEHeaderKey k.
Proof.
  unfold TextProto.CanonicalMIMEHeaderKey.
  destruct (TextProto.allValid k) eqn:E.
  - destruct (canonicalize_fixed k true E) as [H1 H2]. rewrite H1. exact H2.
  - rewrite E. reflexivity.
Qed.

Lemma canonicalKeys_iff (h : Header) :
  canonicalKeys h = true <->
  forall k vv, h !! k = Some vv -> TextProto.CanonicalMIMEHeaderKey k = k.
Proof.
  unfold canonicalKeys. rewrite forallb_forall. split.
  - intros H k vv Hk. apply String.eqb_eq.
    apply (H (k, vv)). apply list_elem_of_In, elem_of_map_to_list, Hk.
  - intros H [k vv] Hin. apply list_elem_of_In, elem_of_map_to_list in Hin.
    apply String.eqb_eq. exact (H k vv Hin).
Qed.

Lemma canonicalKeys_insert (h : Header) k vv :
  canonicalKeys h = true ->
  canonicalKeys (<[TextProto.CanonicalMIMEHeaderKey k := vv]> h) = true.
Proof.
  rewrite !canonicalKeys_iff. intros H k' vv' Hk'.
  apply lookup_insert_Some in Hk'. destruct Hk' as [[<- _]|[_ Hk']].
  - apply CanonicalMIMEHeaderKey_idempotent.
  - exact (H k' vv' Hk').
Qed.

Lemma canonicalKeys_Header_Add (h : Header) k v :
  canonicalKeys h = true -> canonicalKeys (Header_Add h k v) = true.
Proof. apply canonicalKeys_insert. Qed.

Lemma canonicalKeys_Header_Set (h : Header) k v :
  canonicalKeys h = true -> canonicalKeys (Header_Set h k v) = true.
Proof. apply canonicalKeys_insert. Qed.

(** ** handleHTTP *)

Lemma handleHTTP_failure Cfg network req h err :
  RoundTrip network (forwardedFor Cfg req) = inr err ->
  let answer := exec (handleHTTP Cfg network req) (newWorld h) in
  wroteHeader (rw answer) = true /\
  status (rw answer) = StatusServiceUnavailable /\
  sentHeader (rw answer) = errorHeader /\
  written (rw answer) = err ++ newline /\
  trace answer = [EvRoundTrip (forwardedFor Cfg req);
                  EvWriteHeader StatusServiceUnavailable;
                  EvWrite (err ++ newline)].
Proof.
  intros Hrt answer. subst answer.
  unfold handleHTTP, exec, when.
  destruct (Debug Cfg); cbn -[forwardedFor http_Error]; rewrite Hrt;
    cbn -[forwardedFor http_Error]; print_line; cbn -[forwardedFor];
    repeat split; reflexivity.
Qed.

Lemma Header_get_values (h : Header) k :
  Header_get h k = match values h k with
                   | v :: _ => v
                   | [] => ""
                   end.
Proof.
  unfold Header_get, values. destruct (h !! k) as [[|v vv]|]; reflexivity.
Qed.

(** The world in which [WriteHeader] of the origin's status is called. *)
Lemma handleHTTP_success Cfg network req h resp :
  RoundTrip network (forwardedFor Cfg req) = inl resp ->
  canonicalKeys (RespHeader resp) = true ->
  finalStatus (StatusCode resp) = true ->
  bodyAllowedForStatus (StatusCode resp) = true \/ bytesOf (Body resp) = "" ->
  withinDeclaredLength resp = true ->
  let answer := exec (handleHTTP Cfg network req) (newWorld h) in
  panicked (handleHTTP Cfg network req) (newWorld h) = false /\
  wroteHeader (rw answer) = true /\
  status (rw answer) = StatusCode resp /\
  sentHeader (rw answer) = copyHeader ∅ (RespHeader resp) /\
  written (rw answer) = bytesOf (Body resp) /\
  trace answer = (EvRoundTrip (forwardedFor Cfg req)
                  :: EvWriteHeader (StatusCode resp)
                  :: map EvWrite (carrying (Body resp)) ++ [EvBodyClose])%list.
Proof.
  intros Hrt Hcanon Hfinal Hbody Hlen answer. subst answer.
  unfold finalStatus in Hfinal. apply andb_true_iff in Hfinal.
  destruct Hfinal as [Hvalid Hfinal]. apply negb_true_iff in Hfinal.
  assert (Hcl : Header_get (copyHeader ∅ (RespHeader resp)) "Content-Length" =
                Header_get (RespHeader resp) "Content-Length").
  { rewrite !Header_get_values, values_copyHeader by exact Hcanon.
    rewrite values_empty. reflexivity. }
  unfold handleHTTP, panicked, exec, when.
  destruct (Debug Cfg);
    cbn -[forwardedFor copyHeader io_Copy commit checkWriteHeaderCode];
    rewrite Hrt; unfold deferring, bind;
    cbn -[forwardedFor copyHeader io_Copy commit checkWriteHeaderCode];
    rewrite Hvalid;
    cbn -[forwardedFor copyHeader io_Copy commit checkWriteHeaderCode];
    unfold commit;
    cbn -[forwardedFor copyHeader io_Copy checkedHeader declaredLength Header_get];
    rewrite Hfinal;
    (rewrite io_Copy_run;
     [ cbn -[forwardedFor copyHeader checkedHeader declaredLength Header_get];
       repeat split; reflexivity
     | reflexivity | reflexivity | reflexivity
     | exact Hbody
     | cbn -[copyHeader declaredLength Header_get]; rewrite Hcl;
       unfold withinDeclaredLength in Hlen; intros v Hv; rewrite Hv in Hlen;
       apply Z.leb_le in Hlen; lia ]).
Qed.

Lemma outbound_app tr1 tr2 : outbound (tr1 ++ tr2) = (outbound tr1 ++ outbound tr2)%list.
Proof.
  induction tr1 as [|e tr1 IH]; [reflexivity|].
  destruct e; cbn; rewrite IH; reflexivity.
Qed.

Lemma outbound_writes chunks : outbound (map EvWrite chunks) = [].
Proof. induction chunks as [|c chunks IH]; [reflexivity | exact IH]. Qed.

(** What [handleHTTP] does after a round trip that succeeded, whatever
    the response: the status is handed to [WriteHeader]; a code it
    refuses panics, and otherwise the reads of the body that yield bytes
    are written, in their order, up to the first write that fails; the
    body is closed last in both cases. *)
Lemma handleHTTP_trace Cfg network req h resp :
  RoundTrip network (forwardedFor Cfg req) = inl resp ->
  exists mid,
    trace (exec (handleHTTP Cfg network req) (newWorld h)) =
    (EvRoundTrip (forwardedFor Cfg req)
     :: EvWriteHeader (StatusCode resp) :: mid ++ [EvBodyClose])%list /\
    (if checkWriteHeaderCode (StatusCode resp)
     then exists n, mid = map EvWrite (take n (carrying (Body resp)))
     else mid = [EvPanic (InvalidWriteHeaderCode (StatusCode resp))]).
Proof.
  intros Hrt. unfold handleHTTP, exec, when.
  destruct (Debug Cfg);
    cbn -[forwardedFor copyHeader io_Copy commit checkWriteHeaderCode];
    rewrite Hrt; unfold deferring, bind;
    cbn -[forwardedFor copyHeader io_Copy commit checkWriteHeaderCode];
    destruct (checkWriteHeaderCode (StatusCode resp));
    cbn -[forwardedFor copyHeader io_Copy commit].
  1,3: match goal with
       | |- context [io_Copy ?c ?w] =>
           destruct (io_Copy_effects c w) as (n & r' & ->)
       end;
       cbn -[forwardedFor];
       exists (map EvWrite (take n (carrying (Body resp)))); split; [reflexivity|];
       exists n; reflexivity.
  all: exists [EvPanic (InvalidWriteHeaderCode (StatusCode resp))];
    split; reflexivity.
Qed.

(** Whatever the origin answers, [handleHTTP] sends one request: the
    inbound request after the client-IP rewriting. *)
Lemma handleHTTP_outbound Cfg network req h :
  outbound (trace (exec (handleHTTP Cfg network req) (newWorld h))) =
  [forwardedFor Cfg req].
Proof.
  destruct (RoundTrip network (forwardedFor Cfg req)) as [resp|err] eqn:Hrt.
  - destruct (handleHTTP_trace Cfg network req h resp Hrt) as (mid & -> & Hmid).
    cbn [outbound]. rewrite outbound_app.
    destruct (checkWriteHeaderCode (StatusCode resp)).
    + destruct Hmid as (n & ->). rewrite outbound_writes. reflexivity.
    + rewrite Hmid. reflexivity.
  - destruct (handleHTTP_failure Cfg network req h err Hrt) as (_ & _ & _ & _ & ->).
    reflexivity.
Qed.

(** ** The client-IP chain *)

Lemma forwardedFor_split Cfg req host port :
  TProxy Cfg = true ->
  Net.SplitHostPort (RemoteAddr req) = Some (host, port) ->
  ReqHeader (forwardedFor Cfg req) =
  Header_Set (ReqHeader req) "X-Forwarded-For"
    match ReqHeader req !! "X-Forwarded-For" with
    | Some v => GoStrings.Join v ", " ++ ", " ++ host
    | None => host
    end.
Proof. unfold forwardedFor. intros -> ->. reflexivity. Qed.

Lemma forwardedFor_unsplit Cfg req :
  Net.SplitHostPort (RemoteAddr req) = None -> forwardedFor Cfg req = req.
Proof. unfold forwardedFor. intros ->. destruct (TProxy Cfg); reflexivity. Qed.

Lemma Handler_plain Cfg network r :
  passesGate Cfg r = true -> Method r <> MethodConnect ->
  Handler Cfg network r = handleHTTP Cfg network r.
Proof.
  intros Hgate Hm. rewrite Handler_passes by exact Hgate.
  apply String.eqb_neq in Hm. rewrite Hm. reflexivity.
Qed.

Lemma Handler_connect Cfg network r :
  passesGate Cfg r = true -> Method r = MethodConnect ->
  Handler Cfg network r = handleTunneling Cfg network r.
Proof.
  intros Hgate Hm. rewrite Handler_passes by exact Hgate.
  rewrite Hm. reflexivity.
Qed.

(** C2: in transparent-proxy mode, when the remote address splits into
    host and port, the request sent to the origin carries the
    X-Forwarded-For header set to the inbound values of that header
    joined, then ", " and the remote host, when the inbound request has
    the header, and to the remote host alone when it has not; an inbound
    value "A" and the remote host "B" give "A, B". *)
Theorem forwarded_for_chain Cfg network req h host port :
  TProxy Cfg = true ->
  Net.SplitHostPort (RemoteAddr req) = Some (host, port) ->
  let out := forwardedFor Cfg req in
  outbound (trace (exec (handleHTTP Cfg network req) (newWorld h))) = [out] /\
  (forall v, ReqHeader req !! "X-Forwarded-For" = Some v ->
             ReqHeader out !! "X-Forwarded-For" =
             Some [GoStrings.Join v ", " ++ ", " ++ host]) /\
  (forall a, ReqHeader req !! "X-Forwarded-For" = Some [a] ->
             ReqHeader out !! "X-Forwarded-For" = Some [a ++ ", " ++ host]) /\
  (ReqHeader req !! "X-Forwarded-For" = None ->
   ReqHeader out !! "X-Forwarded-For" = Some [host]) /\
  (ReqHeader req !! "X-Forwarded-For" = Some ["A"] -> host = "B" ->
   ReqHeader out !! "X-Forwarded-For" = Some ["A, B"]).
Proof.
  intros Ht Hs out. subst out.
  split; [apply handleHTTP_outbound|].
  rewrite (forwardedFor_split Cfg req host port Ht Hs).
  unfold Header_Set.
  change (TextProto.CanonicalMIMEHeaderKey "X-Forwarded-For") with "X-Forwarded-For".
  rewrite lookup_insert_eq.
  split; [|split; [|split]].
  - intros v ->. reflexivity.
  - intros a ->. reflexivity.
  - intros ->. reflexivity.
  - intros -> ->. reflexivity.
Qed.

Lemma forwarded_for_chain_witness :
  outbound (trace (exec (handleHTTP Scenario.cfg Scenario.network Scenario.getChained)
                     (newWorld None))) =
  [forwardedFor Scenario.cfg Scenario.getChained] /\
  ReqHeader (forwardedFor Scenario.cfg Scenario.getChained) !! "X-Forwarded-For" =
  Some ["A, B"] /\
  ReqHeader (forwardedFor Scenario.cfg Scenario.get) !! "X-Forwarded-For" =
  Some ["B"].
Proof.
  pose proof (forwarded_for_chain Scenario.cfg Scenario.network Scenario.getChained
                None "B" "4711" eq_refl eq_refl) as (H1 & _ & _ & _ & H2).
  pose proof (forwarded_for_chain Scenario.cfg Scenario.network Scenario.get
                None "B" "4711" eq_refl eq_refl) as (_ & _ & _ & H3 & _).
  split; [exact H1|]. split; [apply H2; reflexivity | apply H3; reflexivity].
Defined.

(** C9: in transparent-proxy mode, when the remote address does not
    split into host and port, the request is sent to the origin as it
    came: no header is set or changed. *)
Theorem unsplit_remote_forwarded_unchanged Cfg network req h :
  TProxy Cfg = true ->
  Net.SplitHostPort (RemoteAddr req) = None ->
  forwardedFor Cfg req = req /\
  outbound (trace (exec (handleHTTP Cfg network req) (newWorld h))) = [req].
Proof.
  intros _ Hs. pose proof (forwardedFor_unsplit Cfg req Hs) as E.
  split; [exact E|]. rewrite handleHTTP_outbound, E. reflexivity.
Qed.

Lemma unsplit_remote_forwarded_unchanged_witness :
  forwardedFor Scenario.cfg Scenario.getNoPort = Scenario.getNoPort /\
  outbound (trace (exec (handleHTTP Scenario.cfg Scenario.network Scenario.getNoPort)
                     (newWorld None))) = [Scenario.getNoPort].
Proof.
  exact (unsplit_remote_forwarded_unchanged Scenario.cfg Scenario.network
           Scenario.getNoPort None eq_refl eq_refl).
Defined.

(** C3, as amended: for a request with another method than CONNECT that
    passes the gate and whose round trip succeeds, when the response the
    transport returned has its header keys in canonical form (as the
    transport stores them) and a status code that is a final status the
    server accepts (101, or 200 to 999), the status allows a body or the
    body is empty, the body is not longer than a Content-Length the
    response declares, and the client stays connected, the handler does
    not panic and commits to the response writer that status code, for
    every header key the values of the response, in their order, and the
    bytes of its body; the header values do not depend on the order in
    which [copyHeader] ranges over the header map.  A response 201 with
    X-A: 1, X-A: 2 and body "ok" reaches the client as such. *)
Theorem response_relayed Cfg network req h resp :
  passesGate Cfg req = true ->
  Method req <> MethodConnect ->
  RoundTrip network (forwardedFor Cfg req) = inl resp ->
  canonicalKeys (RespHeader resp) = true ->
  finalStatus (StatusCode resp) = true ->
  bodyAllowedForStatus (StatusCode resp) = true \/ bytesOf (Body resp) = "" ->
  withinDeclaredLength resp = true ->
  let answer := exec (Handler Cfg network req) (newWorld h) in
  panicked (Handler Cfg network req) (newWorld h) = false /\
  wroteHeader (rw answer) = true /\
  status (rw answer) = StatusCode resp /\
  (forall k, values (sentHeader (rw answer)) k = values (RespHeader resp) k) /\
  (forall entries k,
      entries ≡ₚ map_to_list (RespHeader resp) ->
      values (copyHeaderIn entries ∅) k = values (RespHeader resp) k) /\
  written (rw answer) = bytesOf (Body resp).
Proof.
  intros Hgate Hm Hrt Hcanon Hfinal Hbody Hlen answer. subst answer.
  rewrite Handler_plain by assumption.
  destruct (handleHTTP_success Cfg network req h resp Hrt Hcanon Hfinal Hbody Hlen)
    as (Hp & Hw & Hs & Hh & Hb & _).
  split; [exact Hp|]. split; [exact Hw|]. split; [exact Hs|].
  split; [|split; [|exact Hb]].
  - intros k. rewrite Hh, values_copyHeader by exact Hcanon.
    rewrite values_empty. reflexivity.
  - intros entries k Hperm.
    rewrite (values_copyHeader_any_order (RespHeader resp) ∅ entries k Hcanon Hperm).
    rewrite values_empty. reflexivity.
Qed.

Lemma response_relayed_witness :
  let answer := exec (Handler Scenario.cfg Scenario.network Scenario.get)
                  (newWorld None) in
  status (rw answer) = 201%Z /\
  values (sentHeader (rw answer)) "X-A" = ["1"; "2"] /\
  written (rw answer) = "ok".
Proof.
  destruct (response_relayed Scenario.cfg Scenario.network Scenario.get None
              Scenario.created eq_refl ltac:(discriminate) eq_refl eq_refl eq_refl
              (or_introl eq_refl) eq_refl)
    as (_ & _ & Hs & Hh & _ & Hb).
  split; [exact Hs|]. split; [exact (Hh "X-A") | exact Hb].
Defined.

(** C3 as stated fails.  A round trip that succeeds with the status line
    099 makes [WriteHeader] panic: no status, no header and no body reach
    the client, and only the deferred close of the body runs.  And after
    a response 101 the bytes the origin sends are refused by [Write],
    which allows no body for that status. *)
Lemma response_not_relayed :
  (let run := Handler Scenario.cfg Scenario.network Scenario.getBelowRange in
   let answer := exec run (newWorld None) in
   passesGate Scenario.cfg Scenario.getBelowRange = true /\
   Method Scenario.getBelowRange <> MethodConnect /\
   RoundTrip Scenario.network (forwardedFor Scenario.cfg Scenario.getBelowRange) =
   inl Scenario.belowRange /\
   panicked run (newWorld None) = true /\
   wroteHeader (rw answer) = false /\
   status (rw answer) <> StatusCode Scenario.belowRange /\
   values (sentHeader (rw answer)) "X-A" <> values (RespHeader Scenario.belowRange) "X-A" /\
   written (rw answer) <> bytesOf (Body Scenario.belowRange) /\
   trace answer = [EvRoundTrip (forwardedFor Scenario.cfg Scenario.getBelowRange);
                   EvWriteHeader 99;
                   EvPanic (InvalidWriteHeaderCode 99);
                   EvBodyClose]) /\
  (let answer := exec (Handler Scenario.cfg Scenario.network Scenario.getSwitching)
                   (newWorld None) in
   passesGate Scenario.cfg Scenario.getSwitching = true /\
   Method Scenario.getSwitching <> MethodConnect /\
   RoundTrip Scenario.network (forwardedFor Scenario.cfg Scenario.getSwitching) =
   inl Scenario.switching /\
   status (rw answer) = 101%Z /\
   written (rw answer) = "" /\
   written (rw answer) <> bytesOf (Body Scenario.switching)).
Proof.
  split.
  - vm_compute. repeat split; discriminate.
  - vm_compute. repeat split; discriminate.
Qed.

(** The copy of a body ends at the first write that fails: with a client
    whose connection is reported lost at the second write, the first
    chunk is written, the second is refused, the third is not tried, and
    the body of the origin is closed. *)
Example copy_stops_at_failed_write :
  let w := exec (deferring (emit EvBodyClose)
                   (WriteHeader 200 ;; io_Copy ["a"; "b"; "c"]))
             (newWorldLosing None 1) in
  written (rw w) = "a" /\
  trace w = [EvWriteHeader 200; EvWrite "a"; EvWrite "b"; EvBodyClose].
Proof. vm_compute. split; reflexivity. Qed.

(** C8: for a request with another method than CONNECT that passes the
    gate and whose round trip fails, the client receives status 503 and
    the error text as the body (the line [http.Error] prints); the
    response carries the two headers of [http.Error] and nothing of an
    origin, and the request was sent once. *)
Theorem roundtrip_failure_503 Cfg network req h err :
  passesGate Cfg req = true ->
  Method req <> MethodConnect ->
  RoundTrip network (forwardedFor Cfg req) = inr err ->
  let answer := exec (Handler Cfg network req) (newWorld h) in
  wroteHeader (rw answer) = true /\
  status (rw answer) = StatusServiceUnavailable /\
  written (rw answer) = err ++ newline /\
  sentHeader (rw answer) = errorHeader /\
  trace answer = [EvRoundTrip (forwardedFor Cfg req);
                  EvWriteHeader StatusServiceUnavailable;
                  EvWrite (err ++ newline)] /\
  outbound (trace answer) = [forwardedFor Cfg req].
Proof.
  intros Hgate Hm Hrt answer. subst answer.
  rewrite Handler_plain by assumption.
  destruct (handleHTTP_failure Cfg network req h err Hrt)
    as (Hw & Hs & Hh & Hb & Ht).
  repeat split; try assumption. apply handleHTTP_outbound.
Qed.

Lemma roundtrip_failure_503_witness :
  let answer := exec (Handler Scenario.cfg Scenario.network Scenario.getUnreachable)
                  (newWorld None) in
  status (rw answer) = 503%Z /\
  written (rw answer) = "dial tcp: connection refused" ++ newline /\
  sentHeader (rw answer) = errorHeader.
Proof.
  destruct (roundtrip_failure_503 Scenario.cfg Scenario.network
              Scenario.getUnreachable None "dial tcp: connection refused"
              eq_refl ltac:(discriminate) eq_refl)
    as (_ & Hs & Hb & Hh & _).
  split; [exact Hs|]. split; [exact Hb | exact Hh].
Defined.

(** ** handleTunneling *)

Lemma handleTunneling_unreachable Cfg network r h err :
  DialTimeout network (Host r) = DialErr err ->
  let answer := exec (handleTunneling Cfg network r) (newWorld h) in
  wroteHeader (rw answer) = true /\
  status (rw answer) = StatusServiceUnavailable /\
  written (rw answer) = err ++ newline /\
  trace answer = [EvDial (Host r);
                  EvWriteHeader StatusServiceUnavailable;
                  EvWrite (err ++ newline)].
Proof.
  intros Hd answer. subst answer. unfold handleTunneling, exec, when.
  destruct (Debug Cfg); cbn -[http_Error]; rewrite Hd; cbn -[http_Error];
    print_line; cbn; repeat split; reflexivity.
Qed.

Lemma handleTunneling_unhijackable Cfg network r id :
  DialTimeout network (Host r) = DialOk id ->
  let answer := exec (handleTunneling Cfg network r) (newWorld None) in
  wroteHeader (rw answer) = true /\
  status (rw answer) = StatusOK /\
  written (rw answer) = "Hijacking not supported" ++ newline /\
  trace answer = [EvDial (Host r);
                  EvWriteHeader StatusOK;
                  EvWriteHeader StatusInternalServerError;
                  EvWrite ("Hijacking not supported" ++ newline)].
Proof.
  intros Hd answer. subst answer. unfold handleTunneling, exec, when.
  destruct (Debug Cfg); cbn -[http_Error]; rewrite Hd; cbn -[http_Error];
    print_line; cbn; repeat split; reflexivity.
Qed.

Lemma handleTunneling_established Cfg network r d c :
  DialTimeout network (Host r) = DialOk d ->
  let answer := exec (handleTunneling Cfg network r) (newWorld (Some (HijackOk c))) in
  status (rw answer) = StatusOK /\
  hijacked (rw answer) = true /\
  written (rw answer) = "" /\
  trace answer = [EvDial (Host r);
                  EvWriteHeader StatusOK;
                  EvHijack;
                  EvGo (TCPConn d) (TCPConn c);
                  EvGo (TCPConn c) (TCPConn d)].
Proof.
  intros Hd answer. subst answer. unfold handleTunneling, exec, when.
  destruct (Debug Cfg); cbn -[http_Error]; rewrite Hd; cbn -[http_Error];
    print_line; cbn; repeat split; reflexivity.
Qed.

Lemma handleTunneling_hijack_error Cfg network r d err :
  DialTimeout network (Host r) = DialOk d ->
  let answer := exec (handleTunneling Cfg network r) (newWorld (Some (HijackErr err))) in
  wroteHeader (rw answer) = true /\
  status (rw answer) = StatusOK /\
  sentHeader (rw answer) = ∅ /\
  handlerHeader (rw answer) = errorHeader /\
  trace answer = [EvDial (Host r);
                  EvWriteHeader StatusOK;
                  EvHijack;
                  EvWriteHeader StatusServiceUnavailable;
                  EvWrite (err ++ newline);
                  EvGo (TCPConn d) NilConn;
                  EvGo NilConn (TCPConn d)].
Proof.
  intros Hd answer. subst answer. unfold handleTunneling, exec, when.
  destruct (Debug Cfg); cbn -[http_Error]; rewrite Hd; cbn -[http_Error];
    print_line; cbn; repeat split; reflexivity.
Qed.

(** C4: a CONNECT request that passes the gate and whose destination
    cannot be dialled is answered 503 with the error text as the body
    (the line [http.Error] prints), and no [transfer] is started. *)
Theorem dial_failure_503 Cfg network r h err :
  passesGate Cfg r = true ->
  Method r = MethodConnect ->
  DialTimeout network (Host r) = DialErr err ->
  let answer := exec (Handler Cfg network r) (newWorld h) in
  wroteHeader (rw answer) = true /\
  status (rw answer) = StatusServiceUnavailable /\
  written (rw answer) = err ++ newline /\
  dialled (trace answer) = [Host r] /\
  Relay.spawned (trace answer) = [].
Proof.
  intros Hgate Hm Hd answer. subst answer.
  rewrite Handler_connect by assumption.
  destruct (handleTunneling_unreachable Cfg network r h err Hd)
    as (Hw & Hs & Hb & Ht).
  rewrite Ht. repeat split; assumption.
Qed.

Lemma dial_failure_503_witness :
  let answer := exec (Handler Scenario.cfg Scenario.network Scenario.connectUnreachable)
                  (newWorld (Some (HijackOk 3))) in
  status (rw answer) = 503%Z /\
  written (rw answer) = "dial tcp: lookup failed: no such host" ++ newline /\
  Relay.spawned (trace answer) = [].
Proof.
  destruct (dial_failure_503 Scenario.cfg Scenario.network Scenario.connectUnreachable
              (Some (HijackOk 3)) "dial tcp: lookup failed: no such host"
              eq_refl eq_refl eq_refl)
    as (_ & Hs & Hb & _ & Hg).
  split; [exact Hs|]. split; [exact Hb | exact Hg].
Defined.

(** C6, at a writer that does not implement [http.Hijacker]: the status
    line 200 was written before the capability is tested, so the
    [WriteHeader(500)] of [http.Error] is ignored; the client receives
    status 200 with the text "Hijacking not supported" as the body.  No
    [transfer] is started. *)
Theorem hijack_unsupported_answers_200 :
  let answer := exec (Handler Scenario.cfg Scenario.network Scenario.connect)
                  (newWorld None) in
  status (rw answer) = 200%Z /\
  status (rw answer) <> StatusInternalServerError /\
  written (rw answer) = "Hijacking not supported" ++ newline /\
  trace answer = [EvDial "example.org:443";
                  EvWriteHeader 200;
                  EvWriteHeader 500;
                  EvWrite ("Hijacking not supported" ++ newline)] /\
  Relay.spawned (trace answer) = [].
Proof.
  cbv zeta.
  change (Handler Scenario.cfg Scenario.network Scenario.connect)
    with (handleTunneling Scenario.cfg Scenario.network Scenario.connect).
  destruct (handleTunneling_unhijackable Scenario.cfg Scenario.network
              Scenario.connect 7%nat eq_refl) as (_ & Hs & Hb & Ht).
  rewrite Hs, Hb, Ht. repeat split. discriminate.
Qed.

(** The same for every configuration, destination and request. *)
Lemma hijack_unsupported_status Cfg network r h id :
  passesGate Cfg r = true ->
  Method r = MethodConnect ->
  DialTimeout network (Host r) = DialOk id ->
  hijacker (newResponse h) = None ->
  status (rw (exec (Handler Cfg network r) (newWorld h))) = StatusOK.
Proof.
  intros Hgate Hm Hd Hh. cbn in Hh. subst h.
  rewrite Handler_connect by assumption.
  apply (handleTunneling_unhijackable Cfg network r id Hd).
Qed.

(** C10, at a [Hijack] that returns an error: the status line 200 was
    written before [Hijack] is called, so the [WriteHeader(503)] of
    [http.Error] is ignored and the response is not a 503: its status is
    200 and the headers committed with it are not those of [http.Error],
    which only reach the header map of the handler.  The handler does
    not return: it starts both [transfer] goroutines, with the nil
    connection [Hijack] returned. *)
Theorem hijack_error_answers_200 :
  let answer := exec (Handler Scenario.cfg Scenario.network Scenario.connect)
                  (newWorld (Some (HijackErr "hijack failed"))) in
  wroteHeader (rw answer) = true /\
  status (rw answer) = 200%Z /\
  status (rw answer) <> StatusServiceUnavailable /\
  sentHeader (rw answer) = ∅ /\
  handlerHeader (rw answer) = errorHeader /\
  trace answer = [EvDial "example.org:443";
                  EvWriteHeader 200;
                  EvHijack;
                  EvWriteHeader 503;
                  EvWrite ("hijack failed" ++ newline);
                  EvGo (TCPConn 7) NilConn;
                  EvGo NilConn (TCPConn 7)] /\
  Relay.spawned (trace answer) =
  [Relay.transfer (TCPConn 7) NilConn; Relay.transfer NilConn (TCPConn 7)].
Proof.
  cbv zeta.
  change (Handler Scenario.cfg Scenario.network Scenario.connect)
    with (handleTunneling Scenario.cfg Scenario.network Scenario.connect).
  destruct (handleTunneling_hijack_error Scenario.cfg Scenario.network
              Scenario.connect 7%nat "hijack failed" eq_refl)
    as (Hw & Hs & Hsent & Hh & Ht).
  rewrite Hw, Hs, Hsent, Hh, Ht. repeat split. discriminate.
Qed.

(** The same for every configuration, destination and request. *)
Lemma hijack_error_status Cfg network r d err :
  passesGate Cfg r = true ->
  Method r = MethodConnect ->
  DialTimeout network (Host r) = DialOk d ->
  let answer := exec (Handler Cfg network r) (newWorld (Some (HijackErr err))) in
  status (rw answer) = StatusOK /\
  Relay.spawned (trace answer) =
  [Relay.transfer (TCPConn d) NilConn; Relay.transfer NilConn (TCPConn d)].
Proof.
  intros Hgate Hm Hd answer. subst answer.
  rewrite Handler_connect by assumption.
  destruct (handleTunneling_hijack_error Cfg network r d err Hd)
    as (_ & Hs & _ & _ & Ht).
  rewrite Ht. split; [exact Hs | reflexivity].
Qed.

(** C7: a request that does not pass the gate is answered 407 and causes
    no dial, no round trip and no goroutine; a request that passes is
    handled by [handleTunneling] when its method is CONNECT and by
    [handleHTTP] otherwise.  The gate reads the configuration and the
    request only. *)
Theorem gate_then_dispatch Cfg network r h :
  (passesGate Cfg r = false ->
   let answer := exec (Handler Cfg network r) (newWorld h) in
   rejected answer /\
   dialled (trace answer) = [] /\
   outbound (trace answer) = [] /\
   Relay.spawned (trace answer) = []) /\
  (passesGate Cfg r = true -> Method r = MethodConnect ->
   Handler Cfg network r = handleTunneling Cfg network r) /\
  (passesGate Cfg r = true -> Method r <> MethodConnect ->
   Handler Cfg network r = handleHTTP Cfg network r) /\
  (Auth Cfg = "" -> passesGate Cfg r = true).
Proof.
  split; [|split; [|split]].
  - intros Hgate answer. subst answer.
    pose proof (Handler_rejects Cfg network r h Hgate) as Hrej.
    split; [exact Hrej|].
    destruct Hrej as (_ & _ & _ & _ & ->). repeat split.
  - apply Handler_connect.
  - apply Handler_plain.
  - intros E. unfold passesGate. rewrite E. reflexivity.
Qed.

Lemma gate_then_dispatch_witness :
  rejected (exec (Handler Scenario.cfg Scenario.network Scenario.getWrongPassword)
              (newWorld None)) /\
  Handler Scenario.cfg Scenario.network Scenario.connect =
  handleTunneling Scenario.cfg Scenario.network Scenario.connect /\
  Handler Scenario.cfg Scenario.network Scenario.get =
  handleHTTP Scenario.cfg Scenario.network Scenario.get.
Proof.
  split; [|split].
  - apply (proj1 (gate_then_dispatch Scenario.cfg Scenario.network
                    Scenario.getWrongPassword None)).
    reflexivity.
  - apply (proj1 (proj2 (gate_then_dispatch Scenario.cfg Scenario.network
                           Scenario.connect None))); reflexivity.
  - apply (proj1 (proj2 (proj2 (gate_then_dispatch Scenario.cfg Scenario.network
                                  Scenario.get None)))); [reflexivity | discriminate].
Defined.

(** ** The relay: every interleaving keeps the invariant *)

Lemma usable_after_close (m : gmap nat Relay.Descriptor) id c :
  Relay.usable m c = false ->
  Relay.usable (alter Relay.closeDescriptor id m) c = false.
Proof.
  destruct c as [|id']; [reflexivity|]. cbn [Relay.usable].
  rewrite lookup_alter. destruct (decide (id = id')) as [<-|_].
  - destruct (m !! id); reflexivity.
  - intros H. exact H.
Qed.

Lemma usable_closed (m : gmap nat Relay.Descriptor) id :
  Relay.usable (alter Relay.closeDescriptor id m) (TCPConn id) = false.
Proof.
  cbn [Relay.usable]. rewrite lookup_alter_eq.
  destruct (m !! id); reflexivity.
Qed.

Lemma known_after_close (m : gmap nat Relay.Descriptor) id c :
  Relay.known m c -> Relay.known (alter Relay.closeDescriptor id m) c.
Proof.
  intros (id' & -> & Hs). exists id'. split; [reflexivity|].
  rewrite lookup_alter. destruct (decide (id = id')) as [<-|_]; [|exact Hs].
  destruct Hs as [d ->]. eexists. reflexivity.
Qed.

Lemma taskOk_after_close (m : gmap nat Relay.Descriptor) id t :
  Relay.taskOk m t -> Relay.taskOk (alter Relay.closeDescriptor id m) t.
Proof.
  intros (Hs & Hd & H1 & H2).
  split; [|split; [|split]]; auto using known_after_close, usable_after_close.
Qed.

Lemma consistent_after_close (m : gmap nat Relay.Descriptor) id :
  (forall i d, m !! i = Some d -> Relay.consistent d) ->
  forall i d, alter Relay.closeDescriptor id m !! i = Some d -> Relay.consistent d.
Proof.
  intros H i d. rewrite lookup_alter.
  destruct (decide (id = i)) as [<-|_]; [|apply H].
  destruct (m !! id) as [d0|] eqn:E; [|discriminate].
  intros [= <-]. specialize (H _ _ E). unfold Relay.consistent in *. cbn.
  destruct (Relay.isOpen d0); lia.
Qed.

Lemma endpoints_insert (l : list Relay.Task) i t t' :
  l !! i = Some t ->
  Relay.destination t' = Relay.destination t ->
  Relay.source t' = Relay.source t ->
  map (fun t => (Relay.destination t, Relay.source t)) (<[i := t']> l) =
  map (fun t => (Relay.destination t, Relay.source t)) l.
Proof.
  intros Hi Hd Hs.
  change (map (fun t => (Relay.destination t, Relay.source t)))
    with (fmap (M := list) (fun t => (Relay.destination t, Relay.source t))).
  rewrite list_fmap_insert, Hd, Hs. apply list_insert_id.
  rewrite list_lookup_fmap, Hi. reflexivity.
Qed.

(** With two connections the [defer] statements do not panic. *)
Lemma deferCloses_connected t s a b :
  Relay.source t = TCPConn a -> Relay.destination t = TCPConn b ->
  Relay.deferCloses t s = s.
Proof. unfold Relay.deferCloses. intros -> ->. reflexivity. Qed.

(** One step of one goroutine. *)
Lemma step_keeps_invariant (s : Relay.State) i o :
  Relay.Inv s ->
  Relay.Inv (Relay.step s (i, o)) /\
  Relay.endpoints (Relay.step s (i, o)) = Relay.endpoints s.
Proof.
  intros [Halive Hdesc Htasks]. unfold Relay.step. rewrite Halive.
  destruct (Relay.goroutines s !! i) as [t|] eqn:Hi;
    [|split; [constructor; assumption | reflexivity]].
  pose proof (Forall_lookup_1 _ _ _ _ Htasks Hi) as Hok.
  destruct Hok as ((a & Ha & Hka) & (b & Hb & Hkb) & Hsrc & Hdst).
  destruct (Relay.phase t) eqn:Hp.
  - (* the loop of io.Copy *)
    assert (Hstay : forall t', Relay.destination t' = Relay.destination t ->
                               Relay.source t' = Relay.source t ->
                               Relay.phase t' = Relay.Copying \/
                               Relay.phase t' = Relay.ClosingSource ->
              Relay.Inv (Relay.setTask i t' s) /\
              Relay.endpoints (Relay.setTask i t' s) = Relay.endpoints s).
    { intros t' Hd' Hs' Hp'. split; [|exact (endpoints_insert _ i t t' Hi Hd' Hs')].
      constructor; cbn; [assumption..|].
      apply Forall_insert; [exact Htasks|].
      unfold Relay.taskOk. rewrite Hd', Hs'.
      split; [exists a; auto|]. split; [exists b; auto|].
      split.
      - intros [Hq|Hq]; destruct Hp' as [Hp'|Hp']; rewrite Hp' in Hq; discriminate.
      - intros Hq; destruct Hp' as [Hp'|Hp']; rewrite Hp' in Hq; discriminate. }
    cbv zeta. rewrite (deferCloses_connected t s a b Ha Hb), Halive.
    unfold Relay.copyStep. rewrite Ha, Hb.
    destruct o; [|apply Hstay; cbn; auto..].
    destruct (Relay.usable (Relay.descriptors s) (TCPConn a));
      [|apply Hstay; cbn; auto].
    destruct (Relay.usable (Relay.descriptors s) (TCPConn b));
      apply Hstay; cbn; auto.
  - (* the deferred source.Close() *)
    rewrite Ha. cbn [Relay.Close Relay.crashed]. rewrite Halive.
    split; [|apply (endpoints_insert _ i t); [exact Hi|reflexivity..]].
    constructor; cbn.
    + reflexivity.
    + apply consistent_after_close, Hdesc.
    + apply Forall_insert.
      * eapply Forall_impl; [exact Htasks|]. intros; apply taskOk_after_close; assumption.
      * unfold Relay.taskOk. cbn. rewrite Ha, Hb.
        split; [apply known_after_close; exists a; auto|].
        split; [apply known_after_close; exists b; auto|].
        split; [intros _; apply usable_closed | intros Hq; discriminate].
  - (* the deferred destination.Close() *)
    rewrite Hb. cbn [Relay.Close Relay.crashed]. rewrite Halive.
    split; [|apply (endpoints_insert _ i t); [exact Hi|reflexivity..]].
    constructor; cbn.
    + reflexivity.
    + apply consistent_after_close, Hdesc.
    + apply Forall_insert.
      * eapply Forall_impl; [exact Htasks|]. intros; apply taskOk_after_close; assumption.
      * unfold Relay.taskOk. cbn. rewrite Ha, Hb.
        split; [apply known_after_close; exists a; auto|].
        split; [apply known_after_close; exists b; auto|].
        split; [intros _ | intros _; apply usable_closed].
        apply usable_after_close. rewrite <- Ha. apply Hsrc. left. reflexivity.
  - split; [constructor; assumption | reflexivity].
Qed.

Lemma run_keeps_invariant sched :
  forall s, Relay.Inv s ->
            Relay.Inv (Relay.run sched s) /\
            Relay.endpoints (Relay.run sched s) = Relay.endpoints s.
Proof.
  unfold Relay.run.
  induction sched as [|[i o] sched IH]; intros s Hs; [split; [exact Hs|reflexivity]|].
  cbn [foldl]. destruct (step_keeps_invariant s i o Hs) as [Hs' He].
  destruct (IH _ Hs') as [Hs'' He']. split; [exact Hs''|]. rewrite He', He. reflexivity.
Qed.

(** ** The relay: what the invariant gives *)

Lemma released_at_most_once s id :
  Relay.Inv s -> (Relay.releasedOf s id <= 1)%nat.
Proof.
  intros [_ Hdesc _]. unfold Relay.releasedOf.
  destruct (Relay.descriptors s !! id) as [d|] eqn:E; [|lia].
  specialize (Hdesc _ _ E). unfold Relay.consistent in Hdesc.
  destruct (Relay.isOpen d); lia.
Qed.

Lemma closed_released_once s id :
  Relay.Inv s ->
  Relay.known (Relay.descriptors s) (TCPConn id) ->
  Relay.usable (Relay.descriptors s) (TCPConn id) = false ->
  Relay.releasedOf s id = 1%nat.
Proof.
  intros [_ Hdesc _] (id' & [= <-] & [d E]) Hu.
  unfold Relay.releasedOf. cbn [Relay.usable] in Hu. rewrite E in *.
  specialize (Hdesc _ _ E). unfold Relay.consistent in Hdesc.
  rewrite Hu in Hdesc. exact Hdesc.
Qed.

Lemma finished_released_once s t a b :
  Relay.Inv s ->
  In t (Relay.goroutines s) ->
  Relay.phase t = Relay.Finished ->
  Relay.source t = TCPConn a ->
  Relay.destination t = TCPConn b ->
  Relay.releasedOf s a = 1%nat /\ Relay.releasedOf s b = 1%nat.
Proof.
  intros Hinv Hin Hp Ha Hb.
  pose proof (Relay.inv_tasks _ Hinv) as Htasks.
  rewrite Forall_forall in Htasks.
  apply list_elem_of_In in Hin.
  destruct (Htasks t Hin) as (Hks & Hkd & Hs & Hd).
  rewrite Ha in *. rewrite Hb in *.
  split; apply closed_released_once; auto.
Qed.

(** A step that is not the copy of a chunk moves the goroutine on. *)
Lemma step_advances s i o t :
  Relay.Inv s ->
  Relay.goroutines s !! i = Some t ->
  o <> Relay.Chunk ->
  exists t', Relay.goroutines (Relay.step s (i, o)) !! i = Some t' /\
             Relay.phase t' = Relay.next (Relay.phase t).
Proof.
  intros Hinv Hi Ho.
  pose proof (Relay.inv_alive _ Hinv) as Halive.
  pose proof (Forall_lookup_1 _ _ _ _ (Relay.inv_tasks _ Hinv) Hi) as Hok.
  destruct Hok as ((a & Ha & _) & (b & Hb & _) & _).
  pose proof (lookup_lt_Some _ _ _ Hi) as Hlt.
  unfold Relay.step. rewrite Halive, Hi.
  destruct (Relay.phase t) eqn:Hp.
  - cbv zeta. rewrite (deferCloses_connected t s a b Ha Hb), Halive.
    unfold Relay.copyStep. rewrite Ha.
    destruct o; [contradiction|..]; cbn;
      rewrite list_lookup_insert_eq by exact Hlt; eexists; split; reflexivity.
  - rewrite Ha. cbn. rewrite Halive. cbn.
    rewrite list_lookup_insert_eq by exact Hlt. eexists; split; reflexivity.
  - rewrite Hb. cbn. rewrite Halive. cbn.
    rewrite list_lookup_insert_eq by exact Hlt. eexists; split; reflexivity.
  - exists t. split; [exact Hi | exact Hp].
Qed.

(** The end of the loop and the two deferred calls. *)
Lemma three_steps_finish s i o t :
  Relay.Inv s ->
  Relay.goroutines s !! i = Some t ->
  o <> Relay.Chunk ->
  exists t', Relay.goroutines (Relay.run [(i, o); (i, o); (i, o)] s) !! i = Some t' /\
             Relay.phase t' = Relay.Finished.
Proof.
  intros Hinv Hi Ho. unfold Relay.run. cbn [foldl].
  destruct (step_advances s i o t Hinv Hi Ho) as (t1 & Hi1 & Hp1).
  destruct (step_keeps_invariant s i o Hinv) as [Hinv1 _].
  destruct (step_advances _ i o t1 Hinv1 Hi1 Ho) as (t2 & Hi2 & Hp2).
  destruct (step_keeps_invariant _ i o Hinv1) as [Hinv2 _].
  destruct (step_advances _ i o t2 Hinv2 Hi2 Ho) as (t3 & Hi3 & Hp3).
  exists t3. split; [exact Hi3|].
  rewrite Hp3, Hp2, Hp1. destruct (Relay.phase t); reflexivity.
Qed.

(** The relay of an established tunnel starts in the invariant. *)
Lemma tunnel_start_invariant tr c d :
  Relay.spawned tr =
  [Relay.transfer (TCPConn d) (TCPConn c); Relay.transfer (TCPConn c) (TCPConn d)] ->
  Relay.Inv (Relay.start tr) /\
  Relay.endpoints (Relay.start tr) =
  [(TCPConn d, TCPConn c); (TCPConn c, TCPConn d)].
Proof.
  intros Hsp. unfold Relay.start, Relay.endpoints. rewrite Hsp. cbn.
  split; [|reflexivity].
  assert (Hc : is_Some ((<[d:=Relay.opened]> (<[c:=Relay.opened]>
            (<[c:=Relay.opened]> (<[d:=Relay.opened]> ∅))) : gmap nat Relay.Descriptor) !! c)).
  { rewrite lookup_insert. destruct (decide (d = c)); [eauto|].
    rewrite lookup_insert_eq. eauto. }
  assert (Hd : is_Some ((<[d:=Relay.opened]> (<[c:=Relay.opened]>
            (<[c:=Relay.opened]> (<[d:=Relay.opened]> ∅))) : gmap nat Relay.Descriptor) !! d)).
  { rewrite lookup_insert_eq. eauto. }
  constructor; cbn.
  - reflexivity.
  - intros id dsc. rewrite !lookup_insert, lookup_empty.
    repeat case_decide; intros [= <-]; reflexivity.
  - repeat constructor; cbn; try (eexists; split; [reflexivity|assumption]);
      try (intros [?|?]; discriminate); intros ?; discriminate.
Qed.

(** C5: in an established tunnel (the dial returned the connection [d],
    [Hijack] the connection [c]), under every interleaving of the two
    [transfer] goroutines and whatever their reads return, no connection
    is released more than once; as soon as one goroutine has returned
    both connections have been released exactly once; and whichever
    goroutine ends its loop, at the end of its source or on an error, has
    released both after its two deferred calls.  No goroutine panics. *)
Theorem tunnel_connections_closed_once Cfg network r c d sched :
  passesGate Cfg r = true ->
  Method r = MethodConnect ->
  DialTimeout network (Host r) = DialOk d ->
  let answer := exec (Handler Cfg network r) (newWorld (Some (HijackOk c))) in
  let s := Relay.run sched (Relay.start (trace answer)) in
  Relay.crashed s = false /\
  (Relay.releasedOf s c <= 1 /\ Relay.releasedOf s d <= 1)%nat /\
  (existsb Relay.isFinished (Relay.goroutines s) = true ->
   Relay.releasedOf s c = 1%nat /\ Relay.releasedOf s d = 1%nat) /\
  (forall i o,
      (i < 2)%nat -> o <> Relay.Chunk ->
      let s' := Relay.run [(i, o); (i, o); (i, o)] s in
      Relay.releasedOf s' c = 1%nat /\ Relay.releasedOf s' d = 1%nat).
Proof.
  intros Hgate Hm Hd answer s. subst s answer.
  rewrite Handler_connect by assumption.
  destruct (handleTunneling_established Cfg network r d c Hd) as (_ & _ & _ & Ht).
  rewrite Ht. clear Ht.
  match goal with |- context [Relay.start ?tr] => set (tr0 := tr) end.
  destruct (tunnel_start_invariant tr0 c d eq_refl) as [Hinv0 Hends0].
  destruct (run_keeps_invariant sched _ Hinv0) as [Hinv Hends].
  rewrite Hends0 in Hends.
  set (s := Relay.run sched (Relay.start tr0)) in *.
  assert (Hfin : forall s', Relay.Inv s' ->
              Relay.endpoints s' = [(TCPConn d, TCPConn c); (TCPConn c, TCPConn d)] ->
              forall t, In t (Relay.goroutines s') ->
                        Relay.phase t = Relay.Finished ->
              Relay.releasedOf s' c = 1%nat /\ Relay.releasedOf s' d = 1%nat).
  { intros s' Hinv' Hends' t Hin Hp.
    assert (Hpair : In (Relay.destination t, Relay.source t) (Relay.endpoints s'))
      by (unfold Relay.endpoints;
          exact (in_map (fun t => (Relay.destination t, Relay.source t)) _ _ Hin)).
    rewrite Hends' in Hpair.
    destruct Hpair as [E|[E|[]]]; injection E as Ed Es.
    - destruct (finished_released_once s' t c d Hinv' Hin Hp) as [H1 H2]; auto.
    - destruct (finished_released_once s' t d c Hinv' Hin Hp) as [H1 H2]; auto. }
  split; [exact (Relay.inv_alive _ Hinv)|].
  split; [split; apply released_at_most_once; exact Hinv|].
  split.
  - intros Hex. apply existsb_exists in Hex. destruct Hex as (t & Hin & Hf).
    apply (Hfin s Hinv Hends t Hin).
    unfold Relay.isFinished in Hf. destruct (Relay.phase t); [discriminate..|reflexivity].
  - intros i o Hi Ho s'. subst s'.
    assert (Hlen : length (Relay.goroutines s) = 2%nat).
    { transitivity (length (Relay.endpoints s)).
      - unfold Relay.endpoints. rewrite length_map. reflexivity.
      - rewrite Hends. reflexivity. }
    destruct (lookup_lt_is_Some_2 (Relay.goroutines s) i) as [t Hti]; [lia|].
    destruct (three_steps_finish s i o t Hinv Hti Ho) as (t' & Hti' & Hp').
    destruct (run_keeps_invariant [(i, o); (i, o); (i, o)] s Hinv) as [Hinv' Hends'].
    rewrite Hends in Hends'.
    apply (Hfin _ Hinv' Hends' t'); [|exact Hp'].
    apply list_elem_of_In. eapply list_elem_of_lookup_2. exact Hti'.
Qed.

Lemma tunnel_connections_closed_once_witness :
  let answer := exec (Handler Scenario.cfg Scenario.network Scenario.connect)
                  (newWorld (Some (HijackOk 3))) in
  let s := Relay.run [(0%nat, Relay.Chunk); (1%nat, Relay.Chunk);
                      (0%nat, Relay.EOF); (1%nat, Relay.Chunk);
                      (0%nat, Relay.EOF); (1%nat, Relay.Chunk);
                      (0%nat, Relay.EOF)]
             (Relay.start (trace answer)) in
  Relay.crashed s = false /\
  (Relay.releasedOf s 3 <= 1 /\ Relay.releasedOf s 7 <= 1)%nat /\
  Relay.releasedOf s 3 = 1%nat /\ Relay.releasedOf s 7 = 1%nat.
Proof.
  destruct (tunnel_connections_closed_once Scenario.cfg Scenario.network
              Scenario.connect 3%nat 7%nat
              [(0%nat, Relay.Chunk); (1%nat, Relay.Chunk);
               (0%nat, Relay.EOF); (1%nat, Relay.Chunk);
               (0%nat, Relay.EOF); (1%nat, Relay.Chunk);
               (0%nat, Relay.EOF)]
              eq_refl eq_refl eq_refl) as (Ha & Hb & Hc & _).
  split; [exact Ha|]. split; [exact Hb|]. apply Hc. vm_compute. reflexivity.
Defined.

(** Both goroutines call [Close] on both connections: each connection
    receives two calls, and the second one finds it closed. *)
Example both_directions_call_Close :
  let s := Relay.run [(0%nat, Relay.EOF); (0%nat, Relay.EOF); (0%nat, Relay.EOF);
                      (1%nat, Relay.Chunk); (1%nat, Relay.Chunk); (1%nat, Relay.Chunk)]
             (Relay.start [EvGo (TCPConn 7) (TCPConn 3); EvGo (TCPConn 3) (TCPConn 7)]) in
  forallb Relay.isFinished (Relay.goroutines s) = true /\
  Relay.closeCallsOf s 3 = 2%nat /\ Relay.closeCallsOf s 7 = 2%nat /\
  Relay.releasedOf s 3 = 1%nat /\ Relay.releasedOf s 7 = 1%nat.
Proof. vm_compute. repeat split. Qed.

(** After a failed [Hijack] the goroutines hold a nil connection: the
    [defer] of its [Close] panics, at the first step of either
    goroutine. *)
Example nil_connection_panics :
  Relay.crashed
    (Relay.run [(0%nat, Relay.Chunk)]
       (Relay.start [EvGo (TCPConn 7) NilConn; EvGo NilConn (TCPConn 7)])) = true /\
  Relay.crashed
    (Relay.run [(1%nat, Relay.EOF); (1%nat, Relay.EOF); (1%nat, Relay.EOF)]
       (Relay.start [EvGo (TCPConn 7) NilConn; EvGo NilConn (TCPConn 7)])) = true.
Proof. vm_compute. split; reflexivity. Qed.

(** * Further properties of main.go *)

(** ** checkAuth *)

(** X1: [checkAuth] accepts exactly the values made of "Basic", one
    space, and a text that [DecodeString] decodes to the credential. *)
Theorem checkAuth_accepts_exactly Cfg auth :
  checkAuth Cfg auth = true <->
  exists payload, auth = "Basic " ++ payload /\
                  Base64.DecodeString payload = Some (Auth Cfg).
Proof.
  split.
  - apply checkAuth_true.
  - intros (payload & -> & Hdec).
    rewrite checkAuth_Basic, Hdec. apply String.eqb_refl.
Qed.

Lemma checkAuth_accepts_exactly_witness :
  checkAuth Scenario.cfg "Basic dHQ6MTIz" = true.
Proof.
  apply (proj2 (checkAuth_accepts_exactly Scenario.cfg "Basic dHQ6MTIz")).
  exists "dHQ6MTIz". split; reflexivity.
Defined.

(** ** The two variants of the handler *)

Lemma handleTunneling_dialled Cfg network r h :
  dialled (trace (exec (handleTunneling Cfg network r) (newWorld h))) = [Host r].
Proof.
  unfold handleTunneling, exec, when.
  destruct (DialTimeout network (Host r)) as [d|err] eqn:Hd;
    destruct (Debug Cfg); destruct h as [[c|e]|]; cbn -[http_Error];
    print_line; cbn; reflexivity.
Qed.

(** X2: the handler with the gate and the handler of the variant without
    it do the same on a request exactly when the request passes the gate;
    with no credential configured they are the same handler. *)
Theorem gate_is_the_only_difference Cfg network r h :
  (Auth Cfg = "" -> Handler Cfg network r = Handler0 Cfg network r) /\
  (passesGate Cfg r = true <->
   Handler Cfg network r (newWorld h) = Handler0 Cfg network r (newWorld h)).
Proof.
  split.
  - intros E. unfold Handler, Handler0. rewrite E. reflexivity.
  - split.
    + intros Hg. rewrite Handler_passes by exact Hg. reflexivity.
    + intros E. destruct (passesGate Cfg r) eqn:Hg; [reflexivity|]. exfalso.
      pose proof (Handler_rejects Cfg network r h Hg) as (_ & _ & _ & _ & Ht).
      unfold exec in Ht. rewrite E in Ht. unfold Handler0 in Ht.
      destruct (String.eqb (Method r) MethodConnect).
      * pose proof (handleTunneling_dialled Cfg network r h) as Hd.
        unfold exec in Hd. rewrite Ht in Hd. discriminate Hd.
      * pose proof (handleHTTP_outbound Cfg network r h) as Ho.
        unfold exec in Ho. rewrite Ht in Ho. discriminate Ho.
Qed.

Lemma gate_is_the_only_difference_witness :
  Handler Scenario.cfg Scenario.network Scenario.get (newWorld None) =
  Handler0 Scenario.cfg Scenario.network Scenario.get (newWorld None) /\
  passesGate Scenario.cfg Scenario.getAnonymous = false.
Proof.
  split.
  - apply (proj2 (gate_is_the_only_difference Scenario.cfg Scenario.network
                    Scenario.get None)).
    reflexivity.
  - reflexivity.
Defined.

(** ** The flag [-debug] *)

Lemma withLogged_same w : withLogged (logged w) w = w.
Proof. destruct w. reflexivity. Qed.

Lemma logFree_ret {A} (a : A) : logFree (ret a).
Proof. intros w l. reflexivity. Qed.

Lemma logFree_bind {A B} (m : M A) (k : A -> M B) :
  logFree m -> (forall a, logFree (k a)) -> logFree (bind m k).
Proof.
  intros Hm Hk w l. unfold bind. rewrite Hm.
  destruct (m w) as [[a|] w']; cbn [fst snd]; [apply Hk | reflexivity].
Qed.

Lemma logFree_emit e : logFree (emit e).
Proof. intros w l. reflexivity. Qed.

Lemma logFree_panic {A} p : logFree (panic (A := A) p).
Proof. intros w l. reflexivity. Qed.

Lemma logFree_getWriter : logFree getWriter.
Proof. intros w l. reflexivity. Qed.

Lemma logFree_putWriter r : logFree (putWriter r).
Proof. intros w l. reflexivity. Qed.

Lemma logFree_deferring cleanup body :
  logFree cleanup -> logFree body -> logFree (deferring cleanup body).
Proof.
  intros Hc Hb w l. unfold deferring. rewrite Hb.
  destruct (body w) as [res w']. cbn [fst snd]. rewrite Hc.
  destruct (cleanup w') as [[u|] w'']; reflexivity.
Qed.

Lemma logFree_withHeader f : logFree (withHeader f).
Proof.
  unfold withHeader. apply logFree_bind; [apply logFree_getWriter|].
  intros r. apply logFree_putWriter.
Qed.

Lemma logFree_WriteHeader code : logFree (WriteHeader code).
Proof.
  unfold WriteHeader. apply logFree_bind; [apply logFree_emit|]. intros _.
  apply logFree_bind; [apply logFree_getWriter|]. intros r.
  destruct (hijacked r); [apply logFree_ret|].
  destruct (wroteHeader r); [apply logFree_ret|].
  destruct (checkWriteHeaderCode code); [apply logFree_putWriter | apply logFree_panic].
Qed.

Lemma logFree_Write data : logFree (Write data).
Proof.
  unfold Write. apply logFree_bind; [apply logFree_emit|]. intros _.
  apply logFree_bind; [apply logFree_getWriter|]. intros r.
  destruct (hijacked r); [apply logFree_ret|]. cbv zeta.
  repeat match goal with
    | |- logFree (if ?b then _ else _) => destruct b
    | |- logFree (bind _ _) => apply logFree_bind; [|intros ?]
    | |- logFree (putWriter _) => apply logFree_putWriter
    | |- logFree (ret _) => apply logFree_ret
    end.
Qed.

Lemma logFree_io_Copy chunks : logFree (io_Copy chunks).
Proof.
  induction chunks as [|chunk rest IH]; [apply logFree_ret|].
  cbn [io_Copy]. destruct (String.eqb chunk ""); [exact IH|].
  apply logFree_bind; [apply logFree_Write|].
  intros []; [exact IH | apply logFree_ret].
Qed.

Lemma logFree_http_Error error code : logFree (http_Error error code).
Proof.
  unfold http_Error.
  repeat (apply logFree_bind; [first [apply logFree_withHeader
                                     | apply logFree_WriteHeader
                                     | apply logFree_Write]|intros ?]).
  apply logFree_ret.
Qed.

(** A computation that does not touch the log leaves it as it was. *)
Lemma logFree_logged {A} (m : M A) w : logFree m -> logged (snd (m w)) = logged w.
Proof.
  intros Hm. pose proof (Hm w (logged w)) as E.
  rewrite withLogged_same in E. rewrite E at 1. reflexivity.
Qed.

(** X3: the flag [-debug] changes what is logged and nothing else: the
    response and the effects of the handler are the same with and without
    it.  With the flag one line is logged for a request that passes the
    gate and none for a request that is rejected. *)
Theorem debug_only_logs Cfg network r h :
  let quiet := exec (Handler (withDebug Cfg false) network r) (newWorld h) in
  let verbose := exec (Handler (withDebug Cfg true) network r) (newWorld h) in
  rw verbose = rw quiet /\
  trace verbose = trace quiet /\
  logged quiet = [] /\
  logged verbose = if passesGate Cfg r then [received r] else [].
Proof.
  cbv zeta.
  change (passesGate Cfg r) with (passesGate (withDebug Cfg true) r).
  destruct (passesGate (withDebug Cfg true) r) eqn:Hg.
  - assert (Hg' : passesGate (withDebug Cfg false) r = true) by exact Hg.
    rewrite (Handler_passes _ network r Hg), (Handler_passes _ network r Hg').
    destruct (String.eqb (Method r) MethodConnect).
    + unfold handleTunneling, exec, when. cbn [Debug withDebug].
      destruct (DialTimeout network (Host r)) as [d|err];
        destruct h as [[c|e]|]; cbn -[http_Error]; print_line; cbn;
        repeat split; reflexivity.
    + unfold handleHTTP, exec, when. cbn [Debug withDebug].
      change (forwardedFor (withDebug Cfg true) r) with (forwardedFor Cfg r).
      change (forwardedFor (withDebug Cfg false) r) with (forwardedFor Cfg r).
      match goal with
      | |- context [bind (ret tt) (fun _ => ?rest)] => set (m := rest)
      end.
      assert (Hm : logFree m).
      { subst m. apply logFree_bind; [apply logFree_emit|]. intros _.
        destruct (RoundTrip network (forwardedFor Cfg r)) as [resp|err];
          [|apply logFree_http_Error].
        apply logFree_deferring; [apply logFree_emit|].
        apply logFree_bind; [apply logFree_withHeader|]. intros _.
        apply logFree_bind; [apply logFree_WriteHeader|]. intros _.
        apply logFree_io_Copy. }
      change ((log_Printf (received r) ;; m) (newWorld h))
        with (m (withLogged [received r] (newWorld h))).
      change ((ret tt ;; m) (newWorld h)) with (m (newWorld h)).
      rewrite Hm. cbn [snd].
      pose proof (logFree_logged m (newWorld h) Hm) as Hq.
      split; [reflexivity|]. split; [reflexivity|].
      split; [exact Hq | reflexivity].
  - assert (Hg' : passesGate (withDebug Cfg false) r = false) by exact Hg.
    pose proof (Handler_rejects _ network r h Hg) as (_ & _ & _ & _ & Ht).
    unfold passesGate in Hg, Hg'. unfold Handler, exec.
    apply orb_false_iff in Hg. destruct Hg as [H0 H].
    cbn [Auth withDebug] in *. rewrite H0. cbn [negb].
    assert (E : String.eqb (Header_Get (ReqHeader r) "Proxy-Authorization") ""
                || negb (checkAuth (withDebug Cfg true)
                           (Header_Get (ReqHeader r) "Proxy-Authorization")) = true).
    { destruct (String.eqb (Header_Get (ReqHeader r) "Proxy-Authorization") "");
        [reflexivity|]. cbn [negb andb orb] in *. rewrite H. reflexivity. }
    change (checkAuth (withDebug Cfg false)) with (checkAuth (withDebug Cfg true)).
    rewrite E. repeat split; reflexivity.
Qed.

(** ** handleHTTP: what the client-IP rewriting leaves alone *)

Lemma forwardedFor_frame_keys Cfg req k :
  k <> "X-Forwarded-For" ->
  ReqHeader (forwardedFor Cfg req) !! k = ReqHeader req !! k.
Proof.
  intros Hk. unfold forwardedFor.
  destruct (TProxy Cfg); [|reflexivity].
  destruct (Net.SplitHostPort (RemoteAddr req)) as [[host port]|]; [|reflexivity].
  cbn. unfold Header_Set.
  change (TextProto.CanonicalMIMEHeaderKey "X-Forwarded-For") with "X-Forwarded-For".
  apply lookup_insert_ne. congruence.
Qed.

(** X4: the rewriting at the head of [handleHTTP] changes nothing of the
    request but the header X-Forwarded-For: method, host, remote address,
    body and every other header key (a differently spelled
    x-forwarded-for among them) are as they came; without the flag
    [-tproxy] the request is untouched. *)
Theorem forwardedFor_frame Cfg req :
  let out := forwardedFor Cfg req in
  Method out = Method req /\
  Host out = Host req /\
  RemoteAddr out = RemoteAddr req /\
  ReqBody out = ReqBody req /\
  (forall k, k <> "X-Forwarded-For" -> ReqHeader out !! k = ReqHeader req !! k) /\
  (TProxy Cfg = false -> out = req).
Proof.
  cbv zeta. unfold forwardedFor.
  destruct (TProxy Cfg) eqn:Ht; [|repeat split; reflexivity].
  destruct (Net.SplitHostPort (RemoteAddr req)) as [[host port]|] eqn:Hs;
    [|repeat split; try reflexivity; discriminate].
  cbn. split; [reflexivity|]. split; [reflexivity|]. split; [reflexivity|].
  split; [reflexivity|]. split; [|discriminate].
  intros k Hk.
  pose proof (forwardedFor_frame_keys Cfg req k Hk) as E.
  unfold forwardedFor in E. rewrite Ht, Hs in E. exact E.
Qed.

Lemma forwardedFor_frame_witness :
  ReqHeader (forwardedFor Scenario.cfg Scenario.getChained) !! "Proxy-Authorization" =
  Some ["Basic dHQ6MTIz"] /\
  forwardedFor defaultConfig Scenario.getChained = Scenario.getChained.
Proof.
  split.
  - rewrite (proj1 (proj2 (proj2 (proj2 (proj2
      (forwardedFor_frame Scenario.cfg Scenario.getChained)))))
      "Proxy-Authorization") by discriminate.
    reflexivity.
  - apply (forwardedFor_frame _ Scenario.getChained). reflexivity.
Defined.

(** X5: the proxy does not remove the credential: a request that passes
    the gate and is forwarded reaches the origin with the
    Proxy-Authorization header it came with, so with a credential
    configured the origin receives a header [checkAuth] accepts. *)
Theorem credential_reaches_origin Cfg network req h :
  passesGate Cfg req = true ->
  Method req <> MethodConnect ->
  exists out,
    outbound (trace (exec (Handler Cfg network req) (newWorld h))) = [out] /\
    ReqHeader out !! "Proxy-Authorization" = ReqHeader req !! "Proxy-Authorization" /\
    (Auth Cfg <> "" ->
     checkAuth Cfg (Header_Get (ReqHeader out) "Proxy-Authorization") = true).
Proof.
  intros Hg Hm. exists (forwardedFor Cfg req).
  rewrite Handler_plain by assumption.
  split; [apply handleHTTP_outbound|].
  assert (E : ReqHeader (forwardedFor Cfg req) !! "Proxy-Authorization" =
              ReqHeader req !! "Proxy-Authorization").
  { apply (forwardedFor_frame_keys Cfg req). discriminate. }
  split; [exact E|].
  intros Hcfg. unfold Header_Get.
  change (TextProto.CanonicalMIMEHeaderKey "Proxy-Authorization")
    with "Proxy-Authorization".
  rewrite E. unfold passesGate in Hg.
  apply String.eqb_neq in Hcfg. rewrite Hcfg in Hg. cbn [orb] in Hg.
  apply andb_true_iff in Hg. destruct Hg as [_ Hg]. exact Hg.
Qed.

Lemma credential_reaches_origin_witness :
  exists out,
    outbound (trace (exec (Handler Scenario.cfg Scenario.network Scenario.get)
                       (newWorld None))) = [out] /\
    ReqHeader out !! "Proxy-Authorization" = Some ["Basic dHQ6MTIz"].
Proof.
  destruct (credential_reaches_origin Scenario.cfg Scenario.network Scenario.get None
              eq_refl ltac:(discriminate)) as (out & Ho & Hh & _).
  exists out. split; [exact Ho | exact Hh].
Defined.

(** ** handleTunneling: the order of its effects *)

(** X6: [handleTunneling] dials once, the host of the request as it is,
    and sends no request to an origin.  It starts goroutines only after a
    successful dial, the status line 200 and a call of [Hijack], and then
    exactly two, with the same two connections in opposite roles. *)
Theorem handleTunneling_effects Cfg network r h :
  let tr := trace (exec (handleTunneling Cfg network r) (newWorld h)) in
  dialled tr = [Host r] /\
  outbound tr = [] /\
  (Relay.spawned tr = [] \/
   exists d c mid,
     DialTimeout network (Host r) = DialOk d /\
     tr = ([EvDial (Host r); EvWriteHeader StatusOK; EvHijack] ++ mid ++
           [EvGo (TCPConn d) c; EvGo c (TCPConn d)])%list /\
     Relay.spawned mid = [] /\
     Relay.spawned tr = [Relay.transfer (TCPConn d) c; Relay.transfer c (TCPConn d)]).
Proof.
  cbv zeta. unfold handleTunneling, exec, when.
  destruct (DialTimeout network (Host r)) as [d|err] eqn:Hd;
    destruct (Debug Cfg); destruct h as [[c|e]|]; cbn -[http_Error];
    print_line; cbn;
    (split; [reflexivity|]); (split; [reflexivity|]);
    try (left; reflexivity); right.
  1,3: exists d, (TCPConn c), []; repeat split; reflexivity.
  all: exists d, NilConn,
         [EvWriteHeader StatusServiceUnavailable; EvWrite (e ++ newline)];
       repeat split; reflexivity.
Qed.

(** X7: the status a CONNECT request is answered with is 407 when it does
    not pass the gate, 503 when the dial fails and 200 when the dial
    succeeds, whatever happens afterwards; it is never 500. *)
Theorem connect_status Cfg network r h :
  Method r = MethodConnect ->
  let answer := exec (Handler Cfg network r) (newWorld h) in
  wroteHeader (rw answer) = true /\
  status (rw answer) =
  (if passesGate Cfg r then
     match DialTimeout network (Host r) with
     | DialOk _ => StatusOK
     | DialErr _ => StatusServiceUnavailable
     end
   else StatusProxyAuthRequired) /\
  status (rw answer) <> StatusInternalServerError.
Proof.
  intros Hm. cbv zeta.
  assert (H : wroteHeader (rw (exec (Handler Cfg network r) (newWorld h))) = true /\
              status (rw (exec (Handler Cfg network r) (newWorld h))) =
              (if passesGate Cfg r then
                 match DialTimeout network (Host r) with
                 | DialOk _ => StatusOK
                 | DialErr _ => StatusServiceUnavailable
                 end
               else StatusProxyAuthRequired)).
  { destruct (passesGate Cfg r) eqn:Hg.
    - rewrite Handler_connect by assumption.
      unfold handleTunneling, exec, when.
      destruct (DialTimeout network (Host r)) as [d|err];
        destruct (Debug Cfg); destruct h as [[c|e]|]; cbn -[http_Error];
        print_line; cbn; split; reflexivity.
    - destruct (Handler_rejects Cfg network r h Hg) as (Hw & Hs & _).
      split; assumption. }
  destruct H as [Hw Hs]. split; [exact Hw|]. split; [exact Hs|].
  rewrite Hs. destruct (passesGate Cfg r); [|discriminate].
  destruct (DialTimeout network (Host r)); discriminate.
Qed.

Lemma connect_status_witness :
  status (rw (exec (Handler Scenario.cfg Scenario.network Scenario.connect)
                (newWorld None))) = 200%Z /\
  status (rw (exec (Handler Scenario.cfg Scenario.network Scenario.connectUnreachable)
                (newWorld (Some (HijackOk 3))))) = 503%Z.
Proof.
  split.
  - exact (proj1 (proj2 (connect_status Scenario.cfg Scenario.network
                           Scenario.connect None eq_refl))).
  - exact (proj1 (proj2 (connect_status Scenario.cfg Scenario.network
                           Scenario.connectUnreachable (Some (HijackOk 3)) eq_refl))).
Defined.

(** ** handleHTTP: the order of its effects *)









(** ** copyHeader on any two header maps *)

Lemma values_Header_Add_any (h : Header) k v k' :
  values (Header_Add h k v) k' =
  if decide (TextProto.CanonicalMIMEHeaderKey k = k')
  then (values h k' ++ [v])%list else values h k'.
Proof.
  unfold values, Header_Add.
  destruct (decide (TextProto.CanonicalMIMEHeaderKey k = k')) as [<-|Hne].
  - rewrite lookup_insert_eq. reflexivity.
  - rewrite lookup_insert_ne by exact Hne. reflexivity.
Qed.

Lemma values_addValues_any k vv :
  forall (dst : Header) k',
    values (addValues k dst vv) k' =
    if decide (TextProto.CanonicalMIMEHeaderKey k = k')
    then (values dst k' ++ vv)%list else values dst k'.
Proof.
  unfold addValues.
  induction vv as [|v vv IH]; intros dst k'; cbn [foldl].
  - destruct (decide _); [rewrite app_nil_r|]; reflexivity.
  - rewrite IH, values_Header_Add_any.
    destruct (decide _); [rewrite <- app_assoc|]; reflexivity.
Qed.

Lemma copyHeaderIn_extends entries :
  forall (dst : Header) k,
    exists extra, values (copyHeaderIn entries dst) k = (values dst k ++ extra)%list.
Proof.
  unfold copyHeaderIn.
  induction entries as [|[k0 vv0] rest IH]; intros dst k; cbn [foldl fst snd].
  - exists []. rewrite app_nil_r. reflexivity.
  - destruct (IH (addValues k0 dst vv0) k) as [extra ->].
    rewrite values_addValues_any.
    destruct (decide _).
    + exists (vv0 ++ extra)%list. rewrite app_assoc. reflexivity.
    + exists extra. reflexivity.
Qed.

(** X9: with canonical keys in the source, [copyHeader] adds to each key
    the values of the source after those the destination has; copying an
    empty map changes nothing, and copying two maps one after the other
    adds the values of the first, then those of the second. *)
Theorem copyHeader_appends (dst a b : Header) k :
  canonicalKeys a = true ->
  canonicalKeys b = true ->
  values (copyHeader dst a) k = (values dst k ++ values a k)%list /\
  copyHeader dst ∅ = dst /\
  values (copyHeader (copyHeader dst a) b) k =
  (values dst k ++ values a k ++ values b k)%list.
Proof.
  intros Ha Hb. split; [apply values_copyHeader; exact Ha|].
  split.
  - unfold copyHeader. rewrite map_to_list_empty. reflexivity.
  - rewrite values_copyHeader by exact Hb.
    rewrite values_copyHeader by exact Ha.
    rewrite <- app_assoc. reflexivity.
Qed.

Lemma copyHeader_appends_witness :
  values (copyHeader (Header_Add ∅ "X-A" "0") (RespHeader Scenario.created)) "X-A" =
  ["0"; "1"; "2"].
Proof.
  rewrite (proj1 (copyHeader_appends (Header_Add ∅ "X-A" "0")
                    (RespHeader Scenario.created) (RespHeader Scenario.created)
                    "X-A" eq_refl eq_refl)).
  reflexivity.
Defined.

Lemma values_copyHeaderIn_filed entries :
  forall (dst : Header) k,
    values (copyHeaderIn entries dst) k = (values dst k ++ filedUnder k entries)%list.
Proof.
  unfold copyHeaderIn, filedUnder.
  induction entries as [|[k0 vv0] rest IH]; intros dst k; cbn [foldl fst snd].
  - cbn. rewrite app_nil_r. reflexivity.
  - rewrite IH, values_addValues_any. cbn [List.filter fst].
    destruct (decide (TextProto.CanonicalMIMEHeaderKey k0 = k)) as [E|E].
    + apply String.eqb_eq in E. rewrite E. cbn [map snd concat].
      rewrite <- app_assoc. reflexivity.
    + apply String.eqb_neq in E. rewrite E. reflexivity.
Qed.

Lemma filedUnder_none k entries :
  (forall k0 vv, (k0, vv) ∈ entries -> TextProto.CanonicalMIMEHeaderKey k0 <> k) ->
  filedUnder k entries = [].
Proof.
  unfold filedUnder. induction entries as [|[k0 vv0] rest IH]; intros H; [reflexivity|].
  cbn [List.filter fst].
  assert (E : String.eqb (TextProto.CanonicalMIMEHeaderKey k0) k = false).
  { apply String.eqb_neq. apply (H k0 vv0). left. }
  rewrite E. apply IH. intros k1 vv1 Hin. apply (H k1 vv1). right. exact Hin.
Qed.

Lemma filedUnder_one k k0 vv entries :
  NoDup (entries.*1) ->
  (k0, vv) ∈ entries ->
  TextProto.CanonicalMIMEHeaderKey k0 = k ->
  (forall k1 vv1, (k1, vv1) ∈ entries -> k1 <> k0 ->
                  TextProto.CanonicalMIMEHeaderKey k1 <> k) ->
  filedUnder k entries = vv.
Proof.
  induction entries as [|[k1 vv1] rest IH]; intros Hnd Hin Hk Hother.
  - apply elem_of_nil in Hin. contradiction.
  - cbn in Hnd. apply NoDup_cons in Hnd. destruct Hnd as [Hfresh Hnd].
    unfold filedUnder. cbn [List.filter fst].
    apply elem_of_cons in Hin. destruct Hin as [Hin|Hin].
    + injection Hin as <- <-.
      apply String.eqb_eq in Hk. rewrite Hk. cbn [map snd concat].
      fold (filedUnder k rest). rewrite filedUnder_none; [apply app_nil_r|].
      intros k2 vv2 Hin2. apply (Hother k2 vv2); [right; exact Hin2|].
      intros ->. apply Hfresh. apply list_elem_of_fmap. exists (k0, vv2).
      split; [reflexivity | exact Hin2].
    + assert (Hne : k1 <> k0).
      { intros ->. apply Hfresh. apply list_elem_of_fmap. exists (k0, vv).
        split; [reflexivity | exact Hin]. }
      assert (E : String.eqb (TextProto.CanonicalMIMEHeaderKey k1) k = false).
      { apply String.eqb_neq. apply (Hother k1 vv1); [left | exact Hne]. }
      rewrite E. fold (filedUnder k rest). apply IH; try assumption.
      intros k2 vv2 Hin2. apply (Hother k2 vv2). right. exact Hin2.
Qed.

(** X10: whatever the keys of the source and in whatever order the range
    visits them, after [copyHeader] the values of a key are those the
    destination had, in their place, followed by the values of the
    source keys whose canonical spelling is that key, in the order of
    the visit.  So a key that is the canonical spelling of no source key
    is unchanged, and a source key that shares its canonical spelling
    with no other source key has exactly its values added under that
    spelling. *)
Theorem copyHeader_keeps_destination (dst src : Header) k :
  values (copyHeader dst src) k =
  (values dst k ++ filedUnder k (map_to_list src))%list /\
  (forall entries,
      values (copyHeaderIn entries dst) k = (values dst k ++ filedUnder k entries)%list) /\
  ((forall k0 vv, src !! k0 = Some vv -> TextProto.CanonicalMIMEHeaderKey k0 <> k) ->
   values (copyHeader dst src) k = values dst k) /\
  (forall k0 vv,
      src !! k0 = Some vv ->
      TextProto.CanonicalMIMEHeaderKey k0 = k ->
      (forall k1 vv1, src !! k1 = Some vv1 -> k1 <> k0 ->
                      TextProto.CanonicalMIMEHeaderKey k1 <> k) ->
      forall entries,
        entries ≡ₚ map_to_list src ->
        values (copyHeaderIn entries dst) k = (values dst k ++ vv)%list).
Proof.
  split; [apply values_copyHeaderIn_filed|].
  split; [intros entries; apply values_copyHeaderIn_filed|].
  split.
  - intros Hnone. unfold copyHeader.
    rewrite values_copyHeaderIn_filed, filedUnder_none; [apply app_nil_r|].
    intros k0 vv Hin. apply elem_of_map_to_list in Hin. exact (Hnone k0 vv Hin).
  - intros k0 vv Hk0 Hk Hother entries Hperm.
    rewrite values_copyHeaderIn_filed.
    rewrite (filedUnder_one k k0 vv entries); [reflexivity| | |exact Hk|].
    + rewrite Hperm. apply NoDup_fst_map_to_list.
    + rewrite Hperm. apply elem_of_map_to_list. exact Hk0.
    + intros k1 vv1 Hin. rewrite Hperm in Hin.
      apply elem_of_map_to_list in Hin. exact (Hother k1 vv1 Hin).
Qed.

Example copyHeader_spellings :
  let src : Header := <["x-a" := ["1"; "2"]]> {["Content-Type" := ["text/html"]]} in
  let dst : Header := {["X-A" := ["0"]]} in
  values (copyHeader dst src) "X-A" = ["0"; "1"; "2"] /\
  values (copyHeader dst src) "x-a" = [] /\
  values (copyHeader dst src) "Content-Type" = ["text/html"].
Proof. vm_compute. repeat split. Qed.

(** ** The relay of an established tunnel *)

Lemma tunnelState_start Cfg network r c d :
  DialTimeout network (Host r) = DialOk d ->
  tunnelState c d
    (Relay.start (trace (exec (handleTunneling Cfg network r)
                           (newWorld (Some (HijackOk c)))))).
Proof.
  intros Hd.
  destruct (handleTunneling_established Cfg network r d c Hd) as (_ & _ & _ & Ht).
  rewrite Ht. apply tunnel_start_invariant. reflexivity.
Qed.

Lemma tunnelState_step c d s i o :
  tunnelState c d s -> tunnelState c d (Relay.step s (i, o)).
Proof.
  intros [Hinv Hends]. destruct (step_keeps_invariant s i o Hinv) as [H1 H2].
  split; [exact H1 | rewrite H2; exact Hends].
Qed.

Lemma tunnelState_run c d sched :
  forall s, tunnelState c d s -> tunnelState c d (Relay.run sched s).
Proof.
  intros s [Hinv Hends]. destruct (run_keeps_invariant sched s Hinv) as [H1 H2].
  split; [exact H1 | rewrite H2; exact Hends].
Qed.

Lemma run_app (sched1 sched2 : Relay.Schedule) s :
  Relay.run (sched1 ++ sched2)%list s = Relay.run sched2 (Relay.run sched1 s).
Proof. unfold Relay.run. apply foldl_app. Qed.

(** Each goroutine of a tunnel has the two connections as its ends. *)
Lemma tunnel_task_ends c d s i t :
  tunnelState c d s ->
  Relay.goroutines s !! i = Some t ->
  (Relay.source t = TCPConn c /\ Relay.destination t = TCPConn d) \/
  (Relay.source t = TCPConn d /\ Relay.destination t = TCPConn c).
Proof.
  intros [_ Hends] Hi.
  assert (He : Relay.endpoints s !! i = Some (Relay.destination t, Relay.source t)).
  { unfold Relay.endpoints.
    change (map (fun t => (Relay.destination t, Relay.source t)))
      with (fmap (M := list) (fun t => (Relay.destination t, Relay.source t))).
    rewrite list_lookup_fmap, Hi. reflexivity. }
  rewrite Hends in He.
  destruct i as [|[|i]]; cbn in He; [| |discriminate];
    injection He as Hd Hs; auto.
Qed.

Lemma copied_insert (l : list Relay.Task) i t t' :
  l !! i = Some t ->
  Relay.copied t' = Relay.copied t ->
  map Relay.copied (<[i := t']> l) = map Relay.copied l.
Proof.
  intros Hi Hc.
  change (map Relay.copied) with (fmap (M := list) Relay.copied).
  rewrite list_fmap_insert, Hc. apply list_insert_id.
  rewrite list_lookup_fmap, Hi. reflexivity.
Qed.

Lemma step_frozen c d s i o :
  tunnelState c d s ->
  oneClosed c d s ->
  copiedBy (Relay.step s (i, o)) = copiedBy s /\
  oneClosed c d (Relay.step s (i, o)).
Proof.
  intros Hts Hclosed. pose proof Hts as [Hinv _].
  pose proof (Relay.inv_alive _ Hinv) as Halive.
  unfold Relay.step. rewrite Halive.
  destruct (Relay.goroutines s !! i) as [t|] eqn:Hi; [|split; [reflexivity|exact Hclosed]].
  assert (Hkeep : forall t', Relay.copied t' = Relay.copied t ->
            copiedBy (Relay.setTask i t' s) = copiedBy s /\
            oneClosed c d (Relay.setTask i t' s)).
  { intros t' Hc. split; [|exact Hclosed].
    unfold copiedBy. cbn. exact (copied_insert _ i t t' Hi Hc). }
  assert (Hclose : forall id t', Relay.copied t' = Relay.copied t ->
            let s' := Relay.Close (TCPConn id) s in
            copiedBy (if Relay.crashed s' then s' else Relay.setTask i t' s') =
            copiedBy s /\
            oneClosed c d (if Relay.crashed s' then s' else Relay.setTask i t' s')).
  { intros id t' Hc. cbn. rewrite Halive. split.
    - unfold copiedBy. cbn. exact (copied_insert _ i t t' Hi Hc).
    - unfold oneClosed. cbn [Relay.setTask Relay.descriptors].
      destruct Hclosed as [H|H]; [left|right]; apply usable_after_close; exact H. }
  destruct (tunnel_task_ends c d s i t Hts Hi) as [[Hs Hd]|[Hs Hd]];
    destruct (Relay.phase t) eqn:Hp;
    cbv zeta; rewrite ?(deferCloses_connected t s _ _ Hs Hd), ?Halive.
  all: try (split; [reflexivity | exact Hclosed]).
  all: try (rewrite Hs; apply Hclose; reflexivity).
  all: try (rewrite Hd; apply Hclose; reflexivity).
  all: unfold Relay.copyStep; rewrite Hs, Hd;
    destruct o; try (apply Hkeep; reflexivity);
    destruct Hclosed as [H|H]; rewrite ?H;
    try (apply Hkeep; reflexivity);
    match goal with
    | |- context [if ?b then _ else _] => destruct b
    end; rewrite ?H; apply Hkeep; reflexivity.
Qed.

Lemma run_frozen c d sched :
  forall s, tunnelState c d s -> oneClosed c d s ->
            copiedBy (Relay.run sched s) = copiedBy s /\
            oneClosed c d (Relay.run sched s).
Proof.
  unfold Relay.run.
  induction sched as [|[i o] sched IH]; intros s Hts Hc; [split; [reflexivity|exact Hc]|].
  cbn [foldl]. destruct (step_frozen c d s i o Hts Hc) as [H1 H2].
  destruct (IH _ (tunnelState_step c d s i o Hts) H2) as [H3 H4].
  split; [rewrite H3; exact H1 | exact H4].
Qed.

(** X11: in an established tunnel, once one of the two connections is
    closed it stays closed and no goroutine copies another chunk,
    whatever the schedule and whatever the reads would return. *)
Theorem nothing_relayed_after_close Cfg network r c d sched more :
  passesGate Cfg r = true ->
  Method r = MethodConnect ->
  DialTimeout network (Host r) = DialOk d ->
  let answer := exec (Handler Cfg network r) (newWorld (Some (HijackOk c))) in
  let s := Relay.run sched (Relay.start (trace answer)) in
  oneClosed c d s ->
  copiedBy (Relay.run more s) = copiedBy s /\
  oneClosed c d (Relay.run more s).
Proof.
  intros Hg Hm Hd answer s Hc. subst s answer.
  rewrite Handler_connect in * by assumption.
  apply run_frozen; [|exact Hc].
  apply tunnelState_run, tunnelState_start, Hd.
Qed.

Lemma nothing_relayed_after_close_witness :
  let answer := exec (Handler Scenario.cfg Scenario.network Scenario.connect)
                  (newWorld (Some (HijackOk 3))) in
  let s := Relay.run [(0%nat, Relay.Chunk); (1%nat, Relay.Chunk);
                      (0%nat, Relay.IOError); (0%nat, Relay.IOError)]
             (Relay.start (trace answer)) in
  copiedBy (Relay.run [(1%nat, Relay.Chunk); (1%nat, Relay.Chunk)] s) = [1%nat; 1%nat].
Proof.
  cbv zeta.
  rewrite (proj1 (nothing_relayed_after_close Scenario.cfg Scenario.network
                    Scenario.connect 3%nat 7%nat
                    [(0%nat, Relay.Chunk); (1%nat, Relay.Chunk);
                     (0%nat, Relay.IOError); (0%nat, Relay.IOError)]
                    [(1%nat, Relay.Chunk); (1%nat, Relay.Chunk)]
                    eq_refl eq_refl eq_refl
                    ltac:(left; vm_compute; reflexivity))).
  vm_compute. reflexivity.
Defined.

Lemma tunnel_length c d s :
  tunnelState c d s -> length (Relay.goroutines s) = 2%nat.
Proof.
  intros [_ Hends].
  transitivity (length (Relay.endpoints s)).
  - unfold Relay.endpoints. rewrite length_map. reflexivity.
  - rewrite Hends. reflexivity.
Qed.

(** With a connection closed, every step moves a goroutine on: a read or
    a write of its loop fails. *)
Lemma step_advances_closed c d s i o t :
  tunnelState c d s ->
  oneClosed c d s ->
  Relay.goroutines s !! i = Some t ->
  exists t', Relay.goroutines (Relay.step s (i, o)) !! i = Some t' /\
             Relay.phase t' = Relay.next (Relay.phase t).
Proof.
  intros Hts Hclosed Hi. destruct o.
  2,3: apply step_advances; [apply Hts | exact Hi | discriminate].
  pose proof Hts as [Hinv _].
  pose proof (Relay.inv_alive _ Hinv) as Halive.
  pose proof (lookup_lt_Some _ _ _ Hi) as Hlt.
  destruct (Relay.phase t) eqn:Hp.
  2,3,4: destruct (step_advances s i Relay.EOF t Hinv Hi ltac:(discriminate))
           as (t' & Ht' & Hp');
         exists t'; rewrite Hp in Hp'; split; [|exact Hp'];
         unfold Relay.step in *; rewrite Halive, Hi, Hp in *; exact Ht'.
  unfold Relay.step. rewrite Halive, Hi, Hp. cbv zeta.
  destruct (tunnel_task_ends c d s i t Hts Hi) as [[Hs Hd]|[Hs Hd]];
    rewrite (deferCloses_connected t s _ _ Hs Hd), Halive;
    unfold Relay.copyStep; rewrite Hs, Hd;
    destruct Hclosed as [H|H]; rewrite ?H;
    try (cbn; rewrite list_lookup_insert_eq by exact Hlt;
         eexists; split; reflexivity);
    match goal with
    | |- context [if ?b then _ else _] => destruct b
    end; rewrite ?H; cbn; rewrite list_lookup_insert_eq by exact Hlt;
    eexists; split; reflexivity.
Qed.

(** A step of one goroutine leaves the others as they are. *)
Lemma step_other s i j o :
  i <> j ->
  Relay.goroutines (Relay.step s (j, o)) !! i = Relay.goroutines s !! i.
Proof.
  intros Hne. unfold Relay.step.
  destruct (Relay.crashed s); [reflexivity|].
  destruct (Relay.goroutines s !! j) as [t|]; [|reflexivity].
  destruct (Relay.phase t).
  - cbv zeta. unfold Relay.deferCloses, Relay.copyStep.
    destruct (Relay.destination t) as [|b]; [reflexivity|].
    destruct (Relay.source t) as [|a]; [reflexivity|].
    destruct (Relay.crashed s); [reflexivity|].
    destruct o; try (cbn; apply list_lookup_insert_ne; congruence).
    destruct (Relay.usable _ (TCPConn a));
      [|cbn; apply list_lookup_insert_ne; congruence].
    destruct (Relay.usable _ (TCPConn b)); cbn;
      apply list_lookup_insert_ne; congruence.
  - destruct (Relay.source t); cbn; [reflexivity|].
    destruct (Relay.crashed s); [reflexivity|].
    cbn. apply list_lookup_insert_ne; congruence.
  - destruct (Relay.destination t); cbn; [reflexivity|].
    destruct (Relay.crashed s); [reflexivity|].
    cbn. apply list_lookup_insert_ne; congruence.
  - reflexivity.
Qed.

Lemma finished_closes c d s i t :
  tunnelState c d s ->
  Relay.goroutines s !! i = Some t ->
  Relay.phase t = Relay.Finished ->
  oneClosed c d s.
Proof.
  intros Hts Hi Hp. pose proof Hts as [Hinv _].
  pose proof (Forall_lookup_1 _ _ _ _ (Relay.inv_tasks _ Hinv) Hi) as (_ & _ & Hs & _).
  specialize (Hs (or_intror Hp)).
  destruct (tunnel_task_ends c d s i t Hts Hi) as [[Es _]|[Es _]];
    rewrite Es in Hs; [left|right]; exact Hs.
Qed.

(** Three steps of a goroutine in a tunnel with a closed connection. *)
Lemma three_steps_finish_closed c d s j o1 o2 o3 t :
  tunnelState c d s ->
  oneClosed c d s ->
  Relay.goroutines s !! j = Some t ->
  exists t', Relay.goroutines (Relay.run [(j, o1); (j, o2); (j, o3)] s) !! j = Some t' /\
             Relay.phase t' = Relay.Finished.
Proof.
  intros Hts Hc Hj. unfold Relay.run. cbn [foldl].
  destruct (step_advances_closed c d s j o1 t Hts Hc Hj) as (t1 & Hj1 & Hp1).
  pose proof (tunnelState_step c d s j o1 Hts) as Hts1.
  destruct (step_frozen c d s j o1 Hts Hc) as [_ Hc1].
  destruct (step_advances_closed c d _ j o2 t1 Hts1 Hc1 Hj1) as (t2 & Hj2 & Hp2).
  pose proof (tunnelState_step c d _ j o2 Hts1) as Hts2.
  destruct (step_frozen c d _ j o2 Hts1 Hc1) as [_ Hc2].
  destruct (step_advances_closed c d _ j o3 t2 Hts2 Hc2 Hj2) as (t3 & Hj3 & Hp3).
  exists t3. split; [exact Hj3|].
  rewrite Hp3, Hp2, Hp1. destruct (Relay.phase t); reflexivity.
Qed.

Lemma all_finished_quiescent s :
  Relay.crashed s = false ->
  forallb Relay.isFinished (Relay.goroutines s) = true ->
  forall more, Relay.run more s = s.
Proof.
  intros Halive Hall more. unfold Relay.run.
  induction more as [|[i o] more IH]; [reflexivity|].
  cbn [foldl].
  assert (E : Relay.step s (i, o) = s); [|rewrite E; exact IH].
  unfold Relay.step. rewrite Halive.
  destruct (Relay.goroutines s !! i) as [t|] eqn:Hi; [|reflexivity].
  rewrite forallb_forall in Hall.
  specialize (Hall t (proj1 (list_elem_of_In _ _) (list_elem_of_lookup_2 _ _ _ Hi))).
  unfold Relay.isFinished in Hall.
  destruct (Relay.phase t); try discriminate. reflexivity.
Qed.

(** X12: in an established tunnel, when one goroutine ends its loop (at
    the end of its source or on an error) and runs its two deferred
    calls, the other goroutine ends too at its next three steps, whatever
    its reads would have returned; both have then returned, nothing has
    panicked, and no further step changes anything. *)
Theorem linked_shutdown Cfg network r c d sched i o o1 o2 o3 :
  passesGate Cfg r = true ->
  Method r = MethodConnect ->
  DialTimeout network (Host r) = DialOk d ->
  (i < 2)%nat ->
  o <> Relay.Chunk ->
  let answer := exec (Handler Cfg network r) (newWorld (Some (HijackOk c))) in
  let s := Relay.run (sched ++ [(i, o); (i, o); (i, o)] ++
                      [((1 - i)%nat, o1); ((1 - i)%nat, o2); ((1 - i)%nat, o3)])%list
             (Relay.start (trace answer)) in
  forallb Relay.isFinished (Relay.goroutines s) = true /\
  length (Relay.goroutines s) = 2%nat /\
  Relay.crashed s = false /\
  (forall more, Relay.run more s = s).
Proof.
  intros Hg Hm Hd Hi Ho answer s. subst s answer.
  rewrite Handler_connect by assumption.
  rewrite !run_app.
  pose proof (tunnelState_run c d sched _ (tunnelState_start Cfg network r c d Hd)) as Hts0.
  set (s0 := Relay.run sched _) in *.
  destruct (lookup_lt_is_Some_2 (Relay.goroutines s0) i) as [t Hti];
    [rewrite (tunnel_length c d s0 Hts0); exact Hi|].
  destruct (three_steps_finish s0 i o t (proj1 Hts0) Hti Ho) as (t' & Hti' & Hp').
  pose proof (tunnelState_run c d [(i, o); (i, o); (i, o)] s0 Hts0) as Hts1.
  set (s1 := Relay.run [(i, o); (i, o); (i, o)] s0) in *.
  pose proof (finished_closes c d s1 i t' Hts1 Hti' Hp') as Hc1.
  set (j := (1 - i)%nat).
  assert (Hij : i <> j) by (subst j; lia).
  destruct (lookup_lt_is_Some_2 (Relay.goroutines s1) j) as [tj Htj];
    [rewrite (tunnel_length c d s1 Hts1); subst j; lia|].
  destruct (three_steps_finish_closed c d s1 j o1 o2 o3 tj Hts1 Hc1 Htj)
    as (tj' & Htj' & Hpj').
  pose proof (tunnelState_run c d [(j, o1); (j, o2); (j, o3)] s1 Hts1) as Hts2.
  assert (Hti2 : Relay.goroutines (Relay.run [(j, o1); (j, o2); (j, o3)] s1) !! i
                 = Some t').
  { unfold Relay.run. cbn [foldl]. rewrite !step_other by exact Hij. exact Hti'. }
  set (s2 := Relay.run [(j, o1); (j, o2); (j, o3)] s1) in *.
  assert (Hall : forallb Relay.isFinished (Relay.goroutines s2) = true).
  { apply forallb_forall. intros x Hx.
    apply list_elem_of_In, list_elem_of_lookup_1 in Hx. destruct Hx as [k Hk].
    pose proof (lookup_lt_Some _ _ _ Hk) as Hlt.
    rewrite (tunnel_length c d s2 Hts2) in Hlt.
    assert (Hcase : k = i \/ k = j) by (subst j; lia).
    unfold Relay.isFinished.
    destruct Hcase as [->| ->].
    - rewrite Hti2 in Hk. injection Hk as <-. rewrite Hp'. reflexivity.
    - rewrite Htj' in Hk. injection Hk as <-. rewrite Hpj'. reflexivity. }
  split; [exact Hall|]. split; [exact (tunnel_length c d s2 Hts2)|].
  split; [exact (Relay.inv_alive _ (proj1 Hts2))|].
  apply all_finished_quiescent; [exact (Relay.inv_alive _ (proj1 Hts2)) | exact Hall].
Qed.

Lemma linked_shutdown_witness :
  let answer := exec (Handler Scenario.cfg Scenario.network Scenario.connect)
                  (newWorld (Some (HijackOk 3))) in
  let s := Relay.run ([(0%nat, Relay.Chunk); (1%nat, Relay.Chunk)] ++
                      [(1%nat, Relay.EOF); (1%nat, Relay.EOF); (1%nat, Relay.EOF)] ++
                      [((1 - 1)%nat, Relay.Chunk); ((1 - 1)%nat, Relay.Chunk);
                       ((1 - 1)%nat, Relay.Chunk)])%list
             (Relay.start (trace answer)) in
  forallb Relay.isFinished (Relay.goroutines s) = true /\
  Relay.crashed s = false.
Proof.
  destruct (linked_shutdown Scenario.cfg Scenario.network Scenario.connect 3%nat 7%nat
              [(0%nat, Relay.Chunk); (1%nat, Relay.Chunk)] 1%nat Relay.EOF
              Relay.Chunk Relay.Chunk Relay.Chunk
              eq_refl eq_refl eq_refl ltac:(lia) ltac:(discriminate))
    as (H1 & _ & H2 & _).
  split; [exact H1 | exact H2].
Defined.

(** ** The relay after a failed Hijack *)

Lemma crashed_step s c : Relay.crashed s = true -> Relay.step s c = s.
Proof. intros H. unfold Relay.step. destruct c. rewrite H. reflexivity. Qed.

Lemma crashed_run sched :
  forall s, Relay.crashed s = true -> Relay.run sched s = s.
Proof.
  unfold Relay.run. induction sched as [|c sched IH]; intros s H; [reflexivity|].
  cbn [foldl]. rewrite crashed_step by exact H. apply IH, H.
Qed.

(** The relay after a failed [Hijack], from its start: the steps of
    goroutines that do not exist change nothing, and the first step of
    either goroutine panics in a [defer] statement: the first goroutine
    after it has deferred, and so runs, the [Close] of the dialled
    connection, the second at once. *)
Lemma orphans_run d sched :
  let s0 := Relay.start [EvGo (TCPConn d) NilConn; EvGo NilConn (TCPConn d)] in
  Relay.run sched s0 =
  match firstRun 2 sched with
  | None => s0
  | Some 0%nat => Relay.crash (Relay.Close (TCPConn d) s0)
  | Some _ => Relay.crash s0
  end.
Proof.
  cbv zeta. induction sched as [|[i o] sched IH]; [reflexivity|].
  change (Relay.run ((i, o) :: sched) ?s) with (Relay.run sched (Relay.step s (i, o))).
  cbn [firstRun fst].
  destruct i as [|[|i]].
  - change (0 <? 2)%nat with true. cbv iota.
    apply crashed_run. reflexivity.
  - change (1 <? 2)%nat with true. cbv iota.
    apply crashed_run. reflexivity.
  - change (S (S i) <? 2)%nat with false. cbv iota.
    exact IH.
Qed.

(** X13: after a failed [Hijack] the two goroutines hold a nil client
    connection.  Whatever the schedule, the first step of either
    goroutine panics in its [defer] statements, whatever its read would
    return: the process has crashed exactly when one of them has been
    run.  No chunk is ever copied and no goroutine returns.  The dialled
    connection is closed, once, only when the goroutine that runs first
    is [transfer(destConn, clientConn)], whose first [defer] went through;
    otherwise it is still open when the process dies. *)
Theorem hijack_error_relay_panics Cfg network r d err sched :
  passesGate Cfg r = true ->
  Method r = MethodConnect ->
  DialTimeout network (Host r) = DialOk d ->
  let answer := exec (Handler Cfg network r) (newWorld (Some (HijackErr err))) in
  let s := Relay.run sched (Relay.start (trace answer)) in
  Relay.crashed s = (match firstRun 2 sched with
                     | Some _ => true
                     | None => false
                     end) /\
  existsb Relay.isFinished (Relay.goroutines s) = false /\
  copiedBy s = [0%nat; 0%nat] /\
  Relay.closeCallsOf s d = (match firstRun 2 sched with
                            | Some 0%nat => 1%nat
                            | _ => 0%nat
                            end) /\
  Relay.releasedOf s d = Relay.closeCallsOf s d.
Proof.
  intros Hg Hm Hd answer s. subst s answer.
  rewrite Handler_connect by assumption.
  destruct (handleTunneling_hijack_error Cfg network r d err Hd)
    as (_ & _ & _ & _ & Ht).
  rewrite Ht. clear Ht.
  change (Relay.start _)
    with (Relay.start [EvGo (TCPConn d) NilConn; EvGo NilConn (TCPConn d)]).
  rewrite orphans_run.
  destruct (firstRun 2 sched) as [[|i]|];
    unfold Relay.closeCallsOf, Relay.releasedOf, copiedBy;
    cbn; rewrite ?lookup_alter_eq, ?lookup_insert_eq; repeat split; reflexivity.
Qed.

Lemma hijack_error_relay_panics_witness :
  let s := Relay.run [(2%nat, Relay.Chunk); (1%nat, Relay.EOF); (0%nat, Relay.EOF)]
             (Relay.start
                (trace (exec (Handler Scenario.cfg Scenario.network Scenario.connect)
                          (newWorld (Some (HijackErr "hijack failed")))))) in
  Relay.crashed s = true /\ Relay.closeCallsOf s 7 = 0%nat.
Proof.
  destruct (hijack_error_relay_panics Scenario.cfg Scenario.network Scenario.connect
              7%nat "hijack failed"
              [(2%nat, Relay.Chunk); (1%nat, Relay.EOF); (0%nat, Relay.EOF)]
              eq_refl eq_refl eq_refl) as (Hc & _ & _ & Hn & _).
  split; [exact Hc | exact Hn].
Defined.

(** The same when the other goroutine runs first: the dialled connection
    is closed by the call it had deferred. *)
Example hijack_error_closes_destination :
  let s := Relay.run [(0%nat, Relay.Chunk)]
             (Relay.start [EvGo (TCPConn 7) NilConn; EvGo NilConn (TCPConn 7)]) in
  Relay.crashed s = true /\ Relay.closeCallsOf s 7 = 1%nat /\
  Relay.releasedOf s 7 = 1%nat.
Proof. vm_compute. repeat split. Qed.


(** ** The relay: how often Close is called *)

Lemma list_sum_insert (f : Relay.Task -> nat) (l : list Relay.Task) i t t' :
  l !! i = Some t ->
  (list_sum (map f (<[i := t']> l)) + f t = list_sum (map f l) + f t')%nat.
Proof.
  revert i. induction l as [|x l IH]; intros i Hi; [discriminate|].
  destruct i as [|i]; cbn -[list_sum] in *.
  - injection Hi as ->.
    change (f t' + list_sum (map f l) + f t = f t + list_sum (map f l) + f t')%nat.
    lia.
  - specialize (IH i Hi).
    change (f x + list_sum (map f (<[i := t']> l)) + f t =
            f x + list_sum (map f l) + f t')%nat.
    lia.
Qed.

Lemma closeCallsOf_close s id id' :
  is_Some (Relay.descriptors s !! id) ->
  Relay.closeCallsOf (Relay.Close (TCPConn id) s) id' =
  (Relay.closeCallsOf s id' + if Nat.eqb id id' then 1 else 0)%nat.
Proof.
  intros [dsc Hd]. unfold Relay.closeCallsOf. cbn.
  rewrite lookup_alter. destruct (decide (id = id')) as [<-|Hne].
  - rewrite Nat.eqb_refl, Hd. cbn. lia.
  - apply Nat.eqb_neq in Hne. rewrite Hne. lia.
Qed.

(** Each connection has received as many [Close] calls as deferred calls
    were run on it. *)
Lemma step_counts_closes s i o :
  Relay.Inv s ->
  (forall id, Relay.closeCallsOf s id = closesRunOn s id) ->
  forall id, Relay.closeCallsOf (Relay.step s (i, o)) id =
             closesRunOn (Relay.step s (i, o)) id.
Proof.
  intros Hinv Hcount id.
  pose proof (Relay.inv_alive _ Hinv) as Halive.
  unfold Relay.step. rewrite Halive.
  destruct (Relay.goroutines s !! i) as [t|] eqn:Hi; [|apply Hcount].
  pose proof (Forall_lookup_1 _ _ _ _ (Relay.inv_tasks _ Hinv) Hi) as Hok.
  destruct Hok as ((a & Ha & Hka) & (b & Hb & Hkb) & _).
  assert (Hsame : forall t', Relay.source t' = Relay.source t ->
                             Relay.destination t' = Relay.destination t ->
                             Relay.phase t = Relay.Copying ->
                             Relay.phase t' = Relay.Copying \/
                             Relay.phase t' = Relay.ClosingSource ->
            Relay.closeCallsOf (Relay.setTask i t' s) id =
            closesRunOn (Relay.setTask i t' s) id).
  { intros t' Hs Hd Hp Hp'. unfold closesRunOn.
    cbn [Relay.setTask Relay.goroutines].
    pose proof (list_sum_insert (closesRun id) _ i t t' Hi) as E.
    change (Relay.closeCallsOf (Relay.setTask i t' s) id)
      with (Relay.closeCallsOf s id).
    rewrite Hcount. unfold closesRunOn.
    assert (closesRun id t' = closesRun id t); [|lia].
    unfold closesRun. rewrite Hs, Hd, Hp.
    destruct Hp' as [-> | ->]; reflexivity. }
  destruct (Relay.phase t) eqn:Hp.
  - cbv zeta. rewrite (deferCloses_connected t s a b Ha Hb), Halive.
    unfold Relay.copyStep. rewrite Ha, Hb.
    destruct o; [|apply Hsame; cbn; auto..].
    destruct (Relay.usable _ _); [|apply Hsame; cbn; auto].
    destruct (Relay.usable _ _); apply Hsame; cbn; auto.
  - rewrite Ha. cbn [Relay.Close Relay.crashed]. rewrite Halive.
    change (Relay.closeCallsOf (Relay.setTask i ?t' ?s') id)
      with (Relay.closeCallsOf s' id).
    pose proof (closeCallsOf_close s a id Hka) as Ec. cbn [Relay.Close] in Ec.
    unfold closesRunOn. cbn [Relay.setTask Relay.goroutines].
    pose proof (list_sum_insert (closesRun id) _ i t
                  (Relay.withPhase t Relay.ClosingDestination) Hi) as E.
    match goal with |- ?L = _ => change L with
      (Relay.closeCallsOf
         {| Relay.descriptors := alter Relay.closeDescriptor a (Relay.descriptors s);
            Relay.goroutines := Relay.goroutines s;
            Relay.crashed := Relay.crashed s |} id) end.
    rewrite Ec, Hcount. unfold closesRunOn.
    unfold closesRun in E |- *. cbn in E |- *. rewrite Ha, Hb, Hp in E. cbn in E.
    destruct (Nat.eqb a id); destruct (Nat.eqb b id); lia.
  - rewrite Hb. cbn [Relay.Close Relay.crashed]. rewrite Halive.
    pose proof (closeCallsOf_close s b id Hkb) as Ec. cbn [Relay.Close] in Ec.
    unfold closesRunOn. cbn [Relay.setTask Relay.goroutines].
    pose proof (list_sum_insert (closesRun id) _ i t
                  (Relay.withPhase t Relay.Finished) Hi) as E.
    match goal with |- ?L = _ => change L with
      (Relay.closeCallsOf
         {| Relay.descriptors := alter Relay.closeDescriptor b (Relay.descriptors s);
            Relay.goroutines := Relay.goroutines s;
            Relay.crashed := Relay.crashed s |} id) end.
    rewrite Ec, Hcount. unfold closesRunOn.
    unfold closesRun in E |- *. cbn in E |- *. rewrite Ha, Hb, Hp in E. cbn in E.
    destruct (Nat.eqb a id); destruct (Nat.eqb b id); lia.
  - apply Hcount.
Qed.

Lemma run_counts_closes sched :
  forall s, Relay.Inv s ->
            (forall id, Relay.closeCallsOf s id = closesRunOn s id) ->
            forall id, Relay.closeCallsOf (Relay.run sched s) id =
                       closesRunOn (Relay.run sched s) id.
Proof.
  unfold Relay.run.
  induction sched as [|[i o] sched IH]; intros s Hinv Hc; [exact Hc|].
  cbn [foldl]. apply IH.
  - apply (step_keeps_invariant s i o Hinv).
  - apply step_counts_closes; assumption.
Qed.

Lemma start_counts_closes tr c d :
  Relay.spawned tr =
  [Relay.transfer (TCPConn d) (TCPConn c); Relay.transfer (TCPConn c) (TCPConn d)] ->
  forall id, Relay.closeCallsOf (Relay.start tr) id = closesRunOn (Relay.start tr) id.
Proof.
  intros Hsp id. unfold Relay.start, closesRunOn, Relay.closeCallsOf.
  rewrite Hsp. cbn -[list_sum].
  assert (E : forall x y, closesRun id (Relay.transfer x y) = 0%nat).
  { intros x y. unfold closesRun. cbn.
    destruct (connIs y id); destruct (connIs x id); reflexivity. }
  transitivity 0%nat.
  - rewrite !lookup_insert, lookup_empty. repeat case_decide; reflexivity.
  - change (list_sum ?l) with
      (closesRun id (Relay.transfer (TCPConn d) (TCPConn c)) +
       (closesRun id (Relay.transfer (TCPConn c) (TCPConn d)) + 0))%nat.
    rewrite !E. reflexivity.
Qed.

Lemma closesRun_bound c d id t :
  c <> d ->
  (Relay.source t = TCPConn c /\ Relay.destination t = TCPConn d) \/
  (Relay.source t = TCPConn d /\ Relay.destination t = TCPConn c) ->
  (id = c \/ id = d) ->
  (closesRun id t <= 1)%nat /\
  (Relay.phase t = Relay.Finished -> closesRun id t = 1%nat).
Proof.
  intros Hne Hends Hid. unfold closesRun.
  assert (Hcd : Nat.eqb c d = false) by (apply Nat.eqb_neq; exact Hne).
  assert (Hdc : Nat.eqb d c = false) by (apply Nat.eqb_neq; congruence).
  destruct Hends as [[-> ->]|[-> ->]]; destruct Hid as [-> | ->]; cbn;
    rewrite ?Nat.eqb_refl, ?Hcd, ?Hdc; destruct (Relay.phase t);
    split; try lia; try reflexivity; discriminate.
Qed.

(** X14: in an established tunnel between two distinct connections,
    [Close] is called on a connection as often as deferred calls were run
    on it: at most twice, and exactly twice when both goroutines have
    returned, once by each; the connection itself is then released once,
    so the second call found it closed. *)
Theorem both_goroutines_close_both Cfg network r c d sched :
  passesGate Cfg r = true ->
  Method r = MethodConnect ->
  DialTimeout network (Host r) = DialOk d ->
  c <> d ->
  let answer := exec (Handler Cfg network r) (newWorld (Some (HijackOk c))) in
  let s := Relay.run sched (Relay.start (trace answer)) in
  (forall id, Relay.closeCallsOf s id = closesRunOn s id) /\
  (Relay.closeCallsOf s c <= 2 /\ Relay.closeCallsOf s d <= 2)%nat /\
  (forallb Relay.isFinished (Relay.goroutines s) = true ->
   Relay.closeCallsOf s c = 2%nat /\ Relay.closeCallsOf s d = 2%nat /\
   Relay.releasedOf s c = 1%nat /\ Relay.releasedOf s d = 1%nat).
Proof.
  intros Hg Hm Hd Hne answer s. subst s answer.
  rewrite Handler_connect by assumption.
  pose proof (tunnelState_start Cfg network r c d Hd) as Hts0.
  destruct (handleTunneling_established Cfg network r d c Hd) as (_ & _ & _ & Ht).
  rewrite Ht in *. clear Ht.
  match goal with |- context [Relay.start ?tr] => set (tr0 := tr) in * end.
  pose proof (run_counts_closes sched _ (proj1 Hts0)
                (start_counts_closes tr0 c d eq_refl)) as Hcount.
  pose proof (tunnelState_run c d sched _ Hts0) as Hts.
  set (s := Relay.run sched (Relay.start tr0)) in *.
  pose proof (tunnel_length c d s Hts) as Hlen.
  destruct (Relay.goroutines s) as [|t0 [|t1 [|]]] eqn:Hgs; try discriminate.
  pose proof (tunnel_task_ends c d s 0 t0 Hts ltac:(rewrite Hgs; reflexivity)) as He0.
  pose proof (tunnel_task_ends c d s 1 t1 Hts ltac:(rewrite Hgs; reflexivity)) as He1.
  assert (Hsum : forall id, closesRunOn s id =
                            (closesRun id t0 + (closesRun id t1 + 0))%nat).
  { intros id. unfold closesRunOn. rewrite Hgs. reflexivity. }
  destruct (closesRun_bound c d c t0 Hne He0 (or_introl eq_refl)) as [B0c F0c].
  destruct (closesRun_bound c d c t1 Hne He1 (or_introl eq_refl)) as [B1c F1c].
  destruct (closesRun_bound c d d t0 Hne He0 (or_intror eq_refl)) as [B0d F0d].
  destruct (closesRun_bound c d d t1 Hne He1 (or_intror eq_refl)) as [B1d F1d].
  split; [exact Hcount|].
  split; [rewrite !Hcount, !Hsum; lia|].
  intros Hall. cbn in Hall. unfold Relay.isFinished in Hall.
  destruct (Relay.phase t0) eqn:Hp0; try discriminate.
  destruct (Relay.phase t1) eqn:Hp1; try discriminate.
  rewrite !Hcount, !Hsum, F0c, F1c, F0d, F1d by reflexivity.
  split; [reflexivity|]. split; [reflexivity|].
  assert (Hin : In t0 (Relay.goroutines s)) by (rewrite Hgs; left; reflexivity).
  destruct He0 as [[Es Ed]|[Es Ed]].
  - apply (finished_released_once s t0 c d (proj1 Hts) Hin Hp0 Es Ed).
  - destruct (finished_released_once s t0 d c (proj1 Hts) Hin Hp0 Es Ed); auto.
Qed.

Lemma both_goroutines_close_both_witness :
  let answer := exec (Handler Scenario.cfg Scenario.network Scenario.connect)
                  (newWorld (Some (HijackOk 3))) in
  let s := Relay.run [(0%nat, Relay.EOF); (0%nat, Relay.EOF); (0%nat, Relay.EOF);
                      (1%nat, Relay.Chunk); (1%nat, Relay.Chunk); (1%nat, Relay.Chunk)]
             (Relay.start (trace answer)) in
  Relay.closeCallsOf s 3 = 2%nat /\ Relay.closeCallsOf s 7 = 2%nat /\
  Relay.releasedOf s 3 = 1%nat /\ Relay.releasedOf s 7 = 1%nat.
Proof.
  apply (both_goroutines_close_both Scenario.cfg Scenario.network Scenario.connect
           3%nat 7%nat
           [(0%nat, Relay.EOF); (0%nat, Relay.EOF); (0%nat, Relay.EOF);
            (1%nat, Relay.Chunk); (1%nat, Relay.Chunk); (1%nat, Relay.Chunk)]
           eq_refl eq_refl eq_refl ltac:(discriminate)).
  vm_compute. reflexivity.
Defined.

(** ** net.SplitHostPort on the remote addresses of a listener *)

Lemma substring_whole s : String.substring 0 (String.length s) s = s.
Proof. induction s as [|c s IH]; [reflexivity|]. cbn. rewrite IH. reflexivity. Qed.

Lemma substring_prefix s t :
  String.substring 0 (String.length s) (s ++ t) = s.
Proof.
  induction s as [|c s IH].
  - change ("" ++ t) with t. destruct t; reflexivity.
  - rewrite append_String. cbn. rewrite IH. reflexivity.
Qed.

Lemma substring_skip s t n :
  String.substring (String.length s) n (s ++ t) = String.substring 0 n t.
Proof.
  induction s as [|c s IH]; [reflexivity|].
  rewrite append_String. cbn [String.length String.substring]. exact IH.
Qed.

Lemma from_append s t : Net.from (String.length s) (s ++ t) = t.
Proof.
  unfold Net.from. rewrite length_append, substring_skip.
  replace (String.length s + String.length t - String.length s)%nat
    with (String.length t) by lia.
  apply substring_whole.
Qed.

Lemma without_IndexByte bytes s c :
  without bytes s = true -> In c bytes -> Net.IndexByte s c = None.
Proof.
  intros Hw Hin. induction s as [|x s IH]; [reflexivity|].
  cbn [without] in Hw. apply andb_true_iff in Hw. destruct Hw as [Hx Hs].
  cbn [Net.IndexByte].
  destruct (Ascii.eqb c x) eqn:E.
  - apply Ascii.eqb_eq in E. subst x.
    apply negb_true_iff in Hx.
    assert (existsb (Ascii.eqb c) bytes = true).
    { apply existsb_exists. exists c. split; [exact Hin | apply Ascii.eqb_refl]. }
    congruence.
  - rewrite IH by exact Hs. reflexivity.
Qed.

Lemma IndexByte_append s t c :
  Net.IndexByte s c = None ->
  Net.IndexByte (s ++ t) c =
  match Net.IndexByte t c with
  | Some i => Some (String.length s + i)%nat
  | None => None
  end.
Proof.
  induction s as [|x s IH]; intros H.
  - change ("" ++ t) with t. destruct (Net.IndexByte t c); reflexivity.
  - rewrite append_String. cbn [Net.IndexByte] in *.
    destruct (Ascii.eqb c x); [discriminate|].
    destruct (Net.IndexByte s c); [discriminate|].
    rewrite IH by reflexivity.
    destruct (Net.IndexByte t c); reflexivity.
Qed.

Lemma LastIndexByte_append s t c i :
  Net.LastIndexByte t c = Some i ->
  Net.LastIndexByte (s ++ t) c = Some (String.length s + i)%nat.
Proof.
  intros H. induction s as [|x s IH]; [exact H|].
  rewrite append_String. cbn [Net.LastIndexByte]. rewrite IH. reflexivity.
Qed.

Lemma LastIndexByte_none s c :
  Net.IndexByte s c = None -> Net.LastIndexByte s c = None.
Proof.
  induction s as [|x s IH]; intros H; [reflexivity|].
  cbn [Net.IndexByte Net.LastIndexByte] in *.
  destruct (Ascii.eqb c x); [discriminate|].
  destruct (Net.IndexByte s c); [discriminate|].
  rewrite IH by reflexivity. reflexivity.
Qed.

(** An address as the listener reports an IPv4 peer: host, colon, port. *)
Lemma SplitHostPort_plain host port :
  without [":"; "["; "]"]%char host = true ->
  without [":"; "["; "]"]%char port = true ->
  Net.SplitHostPort (host ++ ":" ++ port) = Some (host, port).
Proof.
  intros Hh Hp.
  assert (Hhc : Net.IndexByte host ":"%char = None)
    by (apply (without_IndexByte _ _ _ Hh); cbn; auto).
  assert (Hho : Net.IndexByte host "["%char = None)
    by (apply (without_IndexByte _ _ _ Hh); cbn; auto).
  assert (Hhe : Net.IndexByte host "]"%char = None)
    by (apply (without_IndexByte _ _ _ Hh); cbn; auto).
  assert (Hpc : Net.IndexByte port ":"%char = None)
    by (apply (without_IndexByte _ _ _ Hp); cbn; auto).
  assert (Hpo : Net.IndexByte port "["%char = None)
    by (apply (without_IndexByte _ _ _ Hp); cbn; auto).
  assert (Hpe : Net.IndexByte port "]"%char = None)
    by (apply (without_IndexByte _ _ _ Hp); cbn; auto).
  unfold Net.SplitHostPort.
  assert (Hlast : Net.LastIndexByte (host ++ ":" ++ port) ":"%char =
                  Some (String.length host + 0)%nat).
  { apply LastIndexByte_append.
    change (":" ++ port) with (String ":"%char port).
    cbn [Net.LastIndexByte]. rewrite (LastIndexByte_none _ _ Hpc). reflexivity. }
  rewrite Hlast, Nat.add_0_r.
  assert (Hbr : match host ++ ":" ++ port with
                | String c _ => Ascii.eqb c "["%char
                | EmptyString => false
                end = false).
  { destruct host as [|x host]; [reflexivity|].
    rewrite append_String. cbn [Net.IndexByte] in Hho.
    rewrite Ascii.eqb_sym. destruct (Ascii.eqb "["%char x); [discriminate|reflexivity]. }
  rewrite Hbr, substring_prefix, Hhc.
  change (Net.from 0 (host ++ ":" ++ port))
    with (String.substring 0 (String.length (host ++ ":" ++ port) - 0)
            (host ++ ":" ++ port)).
  rewrite Nat.sub_0_r, substring_whole.
  rewrite (IndexByte_append host _ "["%char Hho), (IndexByte_append host _ "]"%char Hhe).
  change (":" ++ port) with (String ":"%char port).
  cbn [Net.IndexByte Ascii.eqb Bool.eqb]. rewrite Hpo, Hpe.
  f_equal. f_equal.
  change (host ++ String ":"%char port) with (host ++ ":" ++ port).
  assert (E : host ++ ":" ++ port = (host ++ ":") ++ port)
    by (rewrite append_assoc; reflexivity).
  rewrite E.
  replace (String.length host + 1)%nat with (String.length (host ++ ":"))
    by (rewrite length_append; reflexivity).
  apply from_append.
Qed.

(** An address as the listener reports an IPv6 peer: the host, which
    holds colons, in brackets, then colon and port. *)
Lemma SplitHostPort_bracketed host port :
  without ["["; "]"]%char host = true ->
  without [":"; "["; "]"]%char port = true ->
  Net.SplitHostPort ("[" ++ host ++ "]:" ++ port) = Some (host, port).
Proof.
  intros Hh Hp.
  assert (Hho : Net.IndexByte host "["%char = None)
    by (apply (without_IndexByte _ _ _ Hh); cbn; auto).
  assert (Hhe : Net.IndexByte host "]"%char = None)
    by (apply (without_IndexByte _ _ _ Hh); cbn; auto).
  assert (Hpc : Net.IndexByte port ":"%char = None)
    by (apply (without_IndexByte _ _ _ Hp); cbn; auto).
  assert (Hpo : Net.IndexByte port "["%char = None)
    by (apply (without_IndexByte _ _ _ Hp); cbn; auto).
  assert (Hpe : Net.IndexByte port "]"%char = None)
    by (apply (without_IndexByte _ _ _ Hp); cbn; auto).
  pose (rest := host ++ "]:" ++ port).
  assert (E1 : "[" ++ host ++ "]:" ++ port = String "["%char rest) by reflexivity.
  assert (E2 : "[" ++ host ++ "]:" ++ port = ("[" ++ host ++ "]") ++ String ":"%char port).
  { subst rest. change ("[" ++ host ++ "]:" ++ port)
      with ("[" ++ (host ++ ("]" ++ String ":"%char port))).
    rewrite <- (append_assoc host), <- (append_assoc "["). reflexivity. }
  assert (E3 : "[" ++ host ++ "]:" ++ port = ("[" ++ host ++ "]:") ++ port).
  { change ("[" ++ host ++ "]:" ++ port) with ("[" ++ (host ++ ("]:" ++ port))).
    rewrite <- (append_assoc host), <- (append_assoc "["). reflexivity. }
  assert (L2 : String.length ("[" ++ host ++ "]") = (String.length host + 2)%nat).
  { rewrite !length_append. cbn. lia. }
  assert (L3 : String.length ("[" ++ host ++ "]:") = (String.length host + 3)%nat).
  { rewrite !length_append. cbn. lia. }
  assert (Lr : String.length rest = (String.length host + 2 + String.length port)%nat).
  { subst rest. rewrite !length_append. cbn. lia. }
  unfold Net.SplitHostPort.
  assert (Hlast : Net.LastIndexByte ("[" ++ host ++ "]:" ++ port) ":"%char =
                  Some (String.length host + 2)%nat).
  { rewrite E2, (LastIndexByte_append _ _ _ 0).
    - rewrite L2, Nat.add_0_r. reflexivity.
    - cbn [Net.LastIndexByte]. rewrite (LastIndexByte_none _ _ Hpc). reflexivity. }
  rewrite Hlast. rewrite E1 at 1. cbn [Ascii.eqb Bool.eqb].
  assert (Hend : Net.IndexByte ("[" ++ host ++ "]:" ++ port) "]"%char =
                 Some (S (String.length host))).
  { rewrite E1. cbn [Net.IndexByte Ascii.eqb Bool.eqb]. subst rest.
    rewrite (IndexByte_append host _ _ Hhe).
    change ("]:" ++ port) with (String "]"%char (String ":"%char port)).
    cbn [Net.IndexByte Ascii.eqb Bool.eqb]. rewrite Nat.add_0_r. reflexivity. }
  rewrite Hend.
  assert (Hlen : String.length ("[" ++ host ++ "]:" ++ port) =
                 (String.length host + 3 + String.length port)%nat).
  { rewrite E1. cbn [String.length]. rewrite Lr. lia. }
  rewrite Hlen.
  replace (Nat.eqb (S (String.length host) + 1)
             (String.length host + 3 + String.length port)) with false
    by (symmetry; apply Nat.eqb_neq; lia).
  replace (Nat.eqb (S (String.length host) + 1) (String.length host + 2)) with true
    by (symmetry; apply Nat.eqb_eq; lia).
  assert (Hhost : String.substring 1 (S (String.length host) - 1)
                    ("[" ++ host ++ "]:" ++ port) = host).
  { rewrite E1. cbn [String.substring].
    replace (S (String.length host) - 1)%nat with (String.length host) by lia.
    subst rest. apply substring_prefix. }
  rewrite Hhost.
  assert (Hj : Net.from 1 ("[" ++ host ++ "]:" ++ port) = rest).
  { unfold Net.from. rewrite Hlen, E1. cbn [String.substring].
    replace (String.length host + 3 + String.length port - 1)%nat
      with (String.length rest) by lia.
    apply substring_whole. }
  rewrite Hj.
  assert (Hk : Net.from (S (String.length host) + 1) ("[" ++ host ++ "]:" ++ port) =
               String ":"%char port).
  { replace (S (String.length host) + 1)%nat with (String.length ("[" ++ host ++ "]"))
      by lia.
    rewrite E2. apply from_append. }
  rewrite Hk.
  assert (Hro : Net.IndexByte rest "["%char = None).
  { subst rest. rewrite (IndexByte_append host _ _ Hho).
    change ("]:" ++ port) with (String "]"%char (String ":"%char port)).
    cbn [Net.IndexByte Ascii.eqb Bool.eqb]. rewrite Hpo. reflexivity. }
  rewrite Hro. cbn [Net.IndexByte Ascii.eqb Bool.eqb]. rewrite Hpe.
  f_equal. f_equal.
  replace (String.length host + 2 + 1)%nat with (String.length ("[" ++ host ++ "]:"))
    by lia.
  rewrite E3. apply from_append.
Qed.

(** X15: in transparent-proxy mode, for a remote address written as the
    listener writes it (host:port, or [host]:port with a host that holds
    colons), the host is what the request to the origin carries at the
    end of X-Forwarded-For: alone, or after the inbound values and ", ". *)
Theorem remote_host_forwarded Cfg req host port :
  TProxy Cfg = true ->
  without [":"; "["; "]"]%char port = true ->
  (without [":"; "["; "]"]%char host = true /\
   RemoteAddr req = host ++ ":" ++ port) \/
  (without ["["; "]"]%char host = true /\
   RemoteAddr req = "[" ++ host ++ "]:" ++ port) ->
  ReqHeader (forwardedFor Cfg req) !! "X-Forwarded-For" =
  Some [match ReqHeader req !! "X-Forwarded-For" with
        | Some v => GoStrings.Join v ", " ++ ", " ++ host
        | None => host
        end].
Proof.
  intros Ht Hp Haddr.
  assert (Hs : Net.SplitHostPort (RemoteAddr req) = Some (host, port)).
  { destruct Haddr as [[Hh ->]|[Hh ->]].
    - apply SplitHostPort_plain; assumption.
    - apply SplitHostPort_bracketed; assumption. }
  rewrite (forwardedFor_split Cfg req host port Ht Hs).
  unfold Header_Set.
  change (TextProto.CanonicalMIMEHeaderKey "X-Forwarded-For") with "X-Forwarded-For".
  apply lookup_insert_eq.
Qed.

Lemma remote_host_forwarded_witness :
  ReqHeader (forwardedFor Scenario.cfg
               (Scenario.request "GET" "example.org" "[2001:db8::1]:4711"
                  (Header_Set ∅ "X-Forwarded-For" "192.0.2.7")))
    !! "X-Forwarded-For" = Some ["192.0.2.7, 2001:db8::1"] /\
  ReqHeader (forwardedFor Scenario.cfg
               (Scenario.request "GET" "example.org" "192.0.2.9:4711" ∅))
    !! "X-Forwarded-For" = Some ["192.0.2.9"].
Proof.
  split.
  - rewrite (remote_host_forwarded Scenario.cfg
               (Scenario.request "GET" "example.org" "[2001:db8::1]:4711"
                  (Header_Set ∅ "X-Forwarded-For" "192.0.2.7"))
               "2001:db8::1" "4711" eq_refl eq_refl
               ltac:(right; split; reflexivity)).
    reflexivity.
  - rewrite (remote_host_forwarded Scenario.cfg
               (Scenario.request "GET" "example.org" "192.0.2.9:4711" ∅)
               "192.0.2.9" "4711" eq_refl eq_refl
               ltac:(left; split; reflexivity)).
    reflexivity.
Defined.

(** ** checkAuth: line breaks in the payload *)

Lemma onlyNewlines_insert nl s1 s2 :
  Base64.isNewline nl = true ->
  Base64.onlyNewlines (s1 ++ String nl s2) = Base64.onlyNewlines (s1 ++ s2).
Proof.
  intros Hnl. induction s1 as [|c s1 IH].
  - change ("" ++ String nl s2) with (String nl s2). change ("" ++ s2) with s2.
    cbn [Base64.onlyNewlines]. rewrite Hnl. reflexivity.
  - rewrite !append_String. cbn [Base64.onlyNewlines]. rewrite IH. reflexivity.
Qed.

Lemma secondPad_insert nl s1 s2 :
  Base64.isNewline nl = true ->
  Base64.secondPad (s1 ++ String nl s2) = Base64.secondPad (s1 ++ s2).
Proof.
  intros Hnl. induction s1 as [|c s1 IH].
  - change ("" ++ String nl s2) with (String nl s2). change ("" ++ s2) with s2.
    cbn [Base64.secondPad]. rewrite Hnl. reflexivity.
  - rewrite !append_String. cbn [Base64.secondPad].
    rewrite IH, (onlyNewlines_insert nl s1 s2 Hnl). reflexivity.
Qed.

Lemma decodeMap_newline nl :
  Base64.isNewline nl = true -> Base64.decodeMap nl = None.
Proof.
  unfold Base64.isNewline. intros H. apply orb_true_iff in H.
  destruct H as [H|H]; apply Ascii.eqb_eq in H; subst nl; reflexivity.
Qed.

Lemma decode_insert nl s1 s2 :
  Base64.isNewline nl = true ->
  forall dbuf,
    Base64.decode (s1 ++ String nl s2) dbuf = Base64.decode (s1 ++ s2) dbuf.
Proof.
  intros Hnl. induction s1 as [|c s1 IH]; intros dbuf.
  - change ("" ++ String nl s2) with (String nl s2). change ("" ++ s2) with s2.
    cbn [Base64.decode]. rewrite (decodeMap_newline nl Hnl), Hnl. reflexivity.
  - rewrite !append_String. cbn [Base64.decode].
    rewrite (secondPad_insert nl s1 s2 Hnl), (onlyNewlines_insert nl s1 s2 Hnl).
    destruct (Base64.decodeMap c) as [out|].
    + destruct dbuf as [|d0 [|d1 [|d2 [|d3 dbuf]]]]; rewrite IH; reflexivity.
    + rewrite IH. reflexivity.
Qed.

(** X16: [checkAuth] does not see carriage returns and line feeds in the
    payload: a value with one of them put anywhere into the base64 text
    is accepted exactly when the value without it is. *)
Theorem checkAuth_skips_line_breaks Cfg nl s1 s2 :
  Base64.isNewline nl = true ->
  checkAuth Cfg ("Basic " ++ s1 ++ String nl s2) = checkAuth Cfg ("Basic " ++ s1 ++ s2).
Proof.
  intros Hnl. rewrite !checkAuth_Basic. unfold Base64.DecodeString.
  rewrite (decode_insert nl s1 s2 Hnl). reflexivity.
Qed.

Lemma checkAuth_skips_line_breaks_witness :
  checkAuth Scenario.cfg ("Basic " ++ "dHQ6" ++ String "010"%char "MTIz") = true.
Proof.
  rewrite (checkAuth_skips_line_breaks Scenario.cfg "010"%char "dHQ6" "MTIz" eq_refl).
  reflexivity.
Defined.

(** ** The answer to a rejected request *)

(** X17: the answer to a request that does not pass the gate depends on
    nothing but the response writer: two rejected requests, whatever
    their method, target and headers and whatever the network would
    answer, leave the same response, the same effects and an empty log. *)
Theorem rejection_is_uniform Cfg network1 network2 r1 r2 h :
  passesGate Cfg r1 = false ->
  passesGate Cfg r2 = false ->
  exec (Handler Cfg network1 r1) (newWorld h) =
  exec (Handler Cfg network2 r2) (newWorld h) /\
  logged (exec (Handler Cfg network1 r1) (newWorld h)) = [].
Proof.
  assert (H : forall network r, passesGate Cfg r = false ->
            exec (Handler Cfg network r) (newWorld h) =
            exec (withHeader (fun hd => Header_Set hd "Proxy-Authenticate" challenge) ;;
                  http_Error "Authorization required" StatusProxyAuthRequired)%go
              (newWorld h)).
  { intros network r Hg. unfold passesGate in Hg. unfold Handler.
    apply orb_false_iff in Hg. destruct Hg as [H0 Hg]. rewrite H0. cbn [negb].
    destruct (String.eqb (Header_Get (ReqHeader r) "Proxy-Authorization") "");
      [reflexivity|].
    cbn [negb andb orb] in *. rewrite Hg. reflexivity. }
  intros H1 H2. rewrite (H network1 r1 H1), (H network2 r2 H2).
  split; reflexivity.
Qed.

Lemma rejection_is_uniform_witness :
  exec (Handler Scenario.cfg Scenario.network Scenario.getAnonymous) (newWorld None) =
  exec (Handler Scenario.cfg Scenario.network Scenario.getWrongPassword) (newWorld None).
Proof.
  exact (proj1 (rejection_is_uniform Scenario.cfg Scenario.network Scenario.network
                  Scenario.getAnonymous Scenario.getWrongPassword None
                  eq_refl eq_refl)).
Defined.

(** ** Two proxies in a row *)

(** X18: when a request passes two proxies in transparent-proxy mode,
    the second one receiving it from the address [remote2], the header
    X-Forwarded-For that reaches the origin is what the first proxy sent
    followed by ", " and the host of [remote2]: each proxy adds the host
    it received the request from, in the order of the path. *)
Theorem forwardedFor_twice Cfg1 Cfg2 req host1 port1 remote2 host2 port2 :
  TProxy Cfg1 = true ->
  TProxy Cfg2 = true ->
  Net.SplitHostPort (RemoteAddr req) = Some (host1, port1) ->
  Net.SplitHostPort remote2 = Some (host2, port2) ->
  let first := forwardedFor Cfg1 req in
  let second := forwardedFor Cfg2 (arrivingFrom remote2 first) in
  ReqHeader second !! "X-Forwarded-For" =
  Some [match ReqHeader req !! "X-Forwarded-For" with
        | Some v => GoStrings.Join v ", " ++ ", " ++ host1 ++ ", " ++ host2
        | None => host1 ++ ", " ++ host2
        end].
Proof.
  intros Ht1 Ht2 Hs1 Hs2 first second. subst first second.
  rewrite (forwardedFor_split Cfg2 (arrivingFrom remote2 (forwardedFor Cfg1 req))
             host2 port2 Ht2 Hs2).
  cbn [arrivingFrom ReqHeader].
  rewrite (forwardedFor_split Cfg1 req host1 port1 Ht1 Hs1).
  unfold Header_Set.
  change (TextProto.CanonicalMIMEHeaderKey "X-Forwarded-For") with "X-Forwarded-For".
  rewrite !lookup_insert_eq.
  cbn [GoStrings.Join].
  destruct (ReqHeader req !! "X-Forwarded-For") as [v|]; [|reflexivity].
  rewrite !append_assoc. reflexivity.
Qed.

Lemma forwardedFor_twice_witness :
  ReqHeader (forwardedFor Scenario.cfg
               (arrivingFrom "C:80" (forwardedFor Scenario.cfg Scenario.getChained)))
    !! "X-Forwarded-For" = Some ["A, B, C"].
Proof.
  rewrite (forwardedFor_twice Scenario.cfg Scenario.cfg Scenario.getChained
             "B" "4711" "C:80" "C" "80" eq_refl eq_refl eq_refl eq_refl).
  reflexivity.
Defined.

(** ** checkAuth on encoded credentials *)

(** X19: of the values a client builds in the standard way, "Basic "
    followed by the base64 encoding of a user:password string,
    [checkAuth] accepts the one built from the configured credential and
    no other. *)
Theorem checkAuth_encoded_credential Cfg credential :
  checkAuth Cfg ("Basic " ++ Base64.EncodeToString credential) = true <->
  credential = Auth Cfg.
Proof.
  rewrite checkAuth_Basic, DecodeString_EncodeToString. apply String.eqb_eq.
Qed.

Lemma checkAuth_encoded_credential_witness :
  checkAuth Scenario.cfg ("Basic " ++ Base64.EncodeToString "tt:123") = true /\
  checkAuth Scenario.cfg ("Basic " ++ Base64.EncodeToString "tt:1234") = false.
Proof.
  split.
  - apply (proj2 (checkAuth_encoded_credential Scenario.cfg "tt:123")). reflexivity.
  - destruct (checkAuth Scenario.cfg ("Basic " ++ Base64.EncodeToString "tt:1234"))
      eqn:E; [|reflexivity].
    apply (proj1 (checkAuth_encoded_credential Scenario.cfg "tt:1234")) in E.
    discriminate E.
Defined.

(** ** checkAuth: bytes outside the alphabet *)

Lemma foreignByte_inv c :
  foreignByte c = true ->
  Base64.decodeMap c = None /\ Base64.isNewline c = false /\
  Ascii.eqb c Base64.padChar = false.
Proof.
  unfold foreignByte. destruct (Base64.decodeMap c); [discriminate|].
  intros H. apply andb_true_iff in H. destruct H as [H1 H2].
  apply negb_true_iff in H1, H2. auto.
Qed.

Lemma onlyNewlines_foreign c s1 s2 :
  foreignByte c = true -> Base64.onlyNewlines (s1 ++ String c s2) = false.
Proof.
  intros Hc. destruct (foreignByte_inv c Hc) as (_ & Hn & _).
  induction s1 as [|x s1 IH].
  - change ("" ++ String c s2) with (String c s2).
    cbn [Base64.onlyNewlines]. rewrite Hn. reflexivity.
  - rewrite append_String. cbn [Base64.onlyNewlines]. rewrite IH.
    apply andb_false_r.
Qed.

Lemma secondPad_foreign c s1 s2 :
  foreignByte c = true -> Base64.secondPad (s1 ++ String c s2) = false.
Proof.
  intros Hc. destruct (foreignByte_inv c Hc) as (_ & Hn & Hp).
  induction s1 as [|x s1 IH].
  - change ("" ++ String c s2) with (String c s2).
    cbn [Base64.secondPad]. rewrite Hn, Hp. reflexivity.
  - rewrite append_String. cbn [Base64.secondPad].
    rewrite IH, (onlyNewlines_foreign c s1 s2 Hc), andb_false_r.
    destruct (Base64.isNewline x); reflexivity.
Qed.

Lemma decode_foreign c s1 s2 :
  foreignByte c = true ->
  forall dbuf, Base64.decode (s1 ++ String c s2) dbuf = None.
Proof.
  intros Hc. destruct (foreignByte_inv c Hc) as (Hm & Hn & Hp).
  induction s1 as [|x s1 IH]; intros dbuf.
  - change ("" ++ String c s2) with (String c s2).
    cbn [Base64.decode]. rewrite Hm, Hn, Hp. reflexivity.
  - rewrite append_String. cbn [Base64.decode].
    rewrite (secondPad_foreign c s1 s2 Hc), (onlyNewlines_foreign c s1 s2 Hc).
    destruct (Base64.decodeMap x) as [out|].
    + destruct dbuf as [|d0 [|d1 [|d2 [|d3 dbuf]]]]; rewrite IH; reflexivity.
    + rewrite IH.
      destruct (Base64.isNewline x); [reflexivity|].
      destruct (Ascii.eqb x Base64.padChar); [|reflexivity].
      destruct dbuf as [|d0 [|d1 [|d2 [|d3 dbuf]]]]; reflexivity.
Qed.

(** X20: [checkAuth] rejects every value whose payload holds a byte that
    is no character of the standard alphabet, no "=" and no line break: a
    space or a tab (before, inside or after the base64 text) and the
    characters "-" and "_" of the URL-safe alphabet among them. *)
Theorem checkAuth_rejects_foreign_bytes Cfg c s1 s2 :
  foreignByte c = true ->
  checkAuth Cfg ("Basic " ++ s1 ++ String c s2) = false.
Proof.
  intros Hc. rewrite checkAuth_Basic. unfold Base64.DecodeString.
  rewrite (decode_foreign c s1 s2 Hc). reflexivity.
Qed.

Lemma checkAuth_rejects_foreign_bytes_witness :
  checkAuth Scenario.cfg ("Basic " ++ "dHQ6MTIz" ++ String " "%char "") = false /\
  checkAuth Scenario.cfg ("Basic " ++ "" ++ String " "%char "dHQ6MTIz") = false /\
  foreignByte "-"%char = true /\ foreignByte "_"%char = true /\
  foreignByte "009"%char = true.
Proof.
  split; [|split; [|repeat split]].
  - exact (checkAuth_rejects_foreign_bytes Scenario.cfg " "%char "dHQ6MTIz" "" eq_refl).
  - exact (checkAuth_rejects_foreign_bytes Scenario.cfg " "%char "" "dHQ6MTIz" eq_refl).
Defined.
